(** * go-metrics-prometheus: the bridge from a go-metrics registry to
      Prometheus gauges (prometheusmetrics.go)

    A shallow embedding of the package and the properties its description
    states about it.  Go strings are byte strings ([string]), [int64] and
    [time.Duration] values are integers ([Z]), [float64] values are IEEE-754
    binary64 numbers ([spec_float] with 53 bits of precision), a Go [error]
    is an optional message, and the gauge cache [map[string]prometheus.Gauge]
    is a [gmap]. *)

From Stdlib Require Import ZArith String Ascii SpecFloat.
From stdpp Require Import base option list gmap strings.

Local Open Scope string_scope.
Local Open Scope list_scope.
Local Open Scope Z_scope.

(** ** Go values used by the package *)

(** [error]: [nil] is [None], a non-nil error carries its message. *)
Definition error : Type := option string.
Abbreviation nil_error := (@None string) (only parsing).

Module Float64.
(** binary64: 53 bits of precision, exponents below 1024. *)
Definition prec : Z := 53.
Definition emax : Z := 1024.

Definition t : Type := spec_float.

(** The literal [0.0]. *)
Definition zero : t := S754_zero false.

(** The conversion [float64(n)] of an [int64]: the nearest binary64 number,
    ties to even. *)
Definition of_int64 (n : Z) : t := binary_normalize prec emax n 0 false.
End Float64.

Abbreviation float64 := Float64.t.

(** ** Package [strings] *)

Module GoStrings.

(** [strings.HasPrefix]. *)
Fixpoint HasPrefix (s pre : string) : bool :=
  match pre with
  | EmptyString => true
  | String p pre' =>
      match s with
      | EmptyString => false
      | String c s' => Ascii.eqb c p && HasPrefix s' pre'
      end
  end.

(** The loop of [strings.Replace] for a non-empty [old]: scan [s] from the
    left, replace the leftmost occurrence, continue behind it (occurrences
    do not overlap).  [skip] counts the bytes of the occurrence just
    replaced that are still to be dropped; [n] is the number of
    replacements left, unlimited when negative. *)
Fixpoint replace_from (old new : string) (skip : nat) (n : Z) (s : string)
  : string :=
  match s with
  | EmptyString => EmptyString
  | String c s' =>
      match skip with
      | S k => replace_from old new k n s'
      | O =>
          if negb (n =? 0) && HasPrefix s old
          then new +:+ replace_from old new (String.length old - 1)%nat (n - 1) s'
          else String c (replace_from old new 0 n s')
      end
  end.

(** [strings.Replace(s, old, new, n)].  The empty pattern, where Go inserts
    [new] at every rune boundary, is not used by the package and is left
    as the identity here. *)
Definition Replace (s old new : string) (n : Z) : string :=
  if bool_decide (old = new) || (n =? 0) then s
  else if bool_decide (old = "") then s
  else replace_from old new 0 n s.

(** Byte-wise map over a string. *)
Fixpoint map (f : ascii -> ascii) (s : string) : string :=
  match s with
  | EmptyString => EmptyString
  | String c s' => String (f c) (map f s')
  end.

(** The ASCII path of [strings.ToLower]: ['A'..'Z'] move to ['a'..'z'],
    every other byte stays.  On strings of bytes below 0x80 this is what
    [strings.ToLower] computes. *)
Definition lowerByte (c : ascii) : ascii :=
  let n := N_of_ascii c in
  if ((65 <=? n) && (n <=? 90))%N then ascii_of_N (n + 32) else c.

Definition ToLowerASCII (s : string) : string := map lowerByte s.

End GoStrings.

(** ** Package [fmt] *)

Module GoFmt.

(** [fmt.Sprintf] restricted to the verb [%s] with string operands (a
    [reflect.Type] operand is passed as the text its [String] method
    returns).  A verb without operand prints [%!s(MISSING)] as in Go;
    surplus operands are dropped. *)
Fixpoint Sprintf (format : string) (a : list string) : string :=
  match format with
  | EmptyString => EmptyString
  | String c rest =>
      if Ascii.eqb c "%" then
        match rest with
        | String v rest' =>
            if Ascii.eqb v "s" then
              match a with
              | arg :: a' => arg +:+ Sprintf rest' a'
              | [] => "%!s(MISSING)" +:+ Sprintf rest' []
              end
            else String c (Sprintf rest a)
        | EmptyString => String c EmptyString
        end
      else String c (Sprintf rest a)
  end.

(** [fmt.Errorf]: a non-nil error with the formatted message. *)
Definition Errorf (format : string) (a : list string) : error :=
  Some (Sprintf format a).

End GoFmt.

(** ** Package [metrics] (rcrowley/go-metrics), as far as it is read *)

Module Metrics.

(** What the type switch of the converter can see of a metric: which of
    the interfaces [Counter], [Gauge], [GaugeFloat64], [Histogram],
    [Meter], [Timer] the value implements (their [Snapshot] methods have
    different result types, so a value implements at most one), with the
    readings the converter takes, or none of them. *)
Inductive View : Type :=
| Counter (Count : Z)                      (* metric.Count() *)
| Gauge (Value : Z)                        (* metric.Value() *)
| GaugeFloat64 (Value : float64)           (* metric.Value() *)
| Histogram (Values : list Z)              (* metric.Snapshot().Sample().Values() *)
| Meter (Rate1 : float64)                  (* metric.Snapshot().Rate1() *)
| Timer (Rate1 : float64)                  (* metric.Snapshot().Rate1() *)
| Other.

(** An [interface{}] value found in the registry: its dynamic type, as
    [reflect.TypeOf] prints it, and its view. *)
Record Metric : Type := mkMetric {
  TypeOf : string;
  view : View
}.

(** [metrics.Registry]: the (name, metric) pairs [Each] visits, in the
    order it visits them. *)
Definition Registry : Type := list (string * Metric).

End Metrics.
Import Metrics.

(** ** The exporter: types *)

Definition MetricConverter : Type := string -> Metric -> float64 * error.
Definition Normalizer : Type := string -> string.

(** [time.Duration] counts nanoseconds. *)
Definition Duration : Type := Z.
Definition Second : Duration := 1000000000.

(** [DefaultMetricConverter].  A case of the switch that does not return
    leaves the switch, and the function ends in the final [return]. *)
Definition DefaultMetricConverter (name : string) (i : Metric) : float64 * error :=
  let unknown :=
    (Float64.zero,
     GoFmt.Errorf "metric '%s' has unknown type: %s" [name; TypeOf i]) in
  match view i with
  | Counter count => (Float64.of_int64 count, nil_error)
  | Gauge value => (Float64.of_int64 value, nil_error)
  | GaugeFloat64 value => (value, nil_error)
  | Histogram samples =>
      if (0 <? length samples)%nat then
        (* samples[len(samples)-1]: the index is in range under the guard *)
        let lastSample := nth (length samples - 1) samples 0 in
        (Float64.of_int64 lastSample, nil_error)
      else unknown
  | Meter rate1 => (rate1, nil_error)
  | Timer rate1 => (rate1, nil_error)
  | Other => unknown
  end.

(** [DefaultKeyNormalizer]. *)
Definition DefaultKeyNormalizer (key : string) : string :=
  let key := GoStrings.Replace key " " "_" (-1) in
  let key := GoStrings.Replace key "." "_" (-1) in
  let key := GoStrings.Replace key "-" "_" (-1) in
  let key := GoStrings.Replace key "=" "_" (-1) in
  key.


(** ** Package [prometheus] (client_golang), as far as it is called *)

Module Prometheus.

Record GaugeOpts : Type := mkGaugeOpts {
  Namespace : string;
  Subsystem : string;
  Name : string;
  Help : string
}.

(** A gauge is a pointer: [addr] is the cell that holds its value, [desc]
    the options it was built from, which never change. *)
Record Gauge : Type := mkGauge {
  addr : nat;
  desc : GaugeOpts
}.

(** [prometheus.Registerer] is an interface; the package calls its method
    [MustRegister] only.  [None] is the panic of a refused registration. *)
Class Registerer (R : Type) : Type :=
  MustRegister : R -> Gauge -> option R.

(** What the client library is asked to do, in order. *)
Inductive Call : Type :=
| CallMustRegister (g : Gauge)
| CallSet (g : Gauge) (v : float64).

(** [prometheus.BuildFQName]. *)
Definition BuildFQName (namespace subsystem name : string) : string :=
  if bool_decide (name = "") then ""
  else if bool_decide (namespace <> "") && bool_decide (subsystem <> "")
    then namespace +:+ "_" +:+ subsystem +:+ "_" +:+ name
  else if bool_decide (namespace <> "") then namespace +:+ "_" +:+ name
  else if bool_decide (subsystem <> "") then subsystem +:+ "_" +:+ name
  else name.

Definition fqName (g : Gauge) : string :=
  BuildFQName (Namespace (desc g)) (Subsystem (desc g)) (Name (desc g)).

(** A registry as [prometheus.NewRegistry] returns it, reduced to the
    contract the package's tests rely on: it remembers the fully-qualified
    names it holds and refuses a name it already holds. *)
Definition Registry : Type := list string.

#[export] Instance Registry_Registerer : Registerer Registry :=
  fun r g => if bool_decide (fqName g ∈ r) then None else Some (fqName g :: r).

End Prometheus.
Import (hints) Prometheus.

(** ** The exporter *)

Section Exporter.

(** The type of the Prometheus registry behind [promRegistry]. *)
Context {R : Type}.

(** The struct.  [registry] stands for the source registry by its content,
    [promRegistry] for the Prometheus registry by its state; both are held
    by reference in Go. *)
Record PrometheusConfig : Type := mkPrometheusConfig {
  Namespace : string;
  registry : Metrics.Registry;
  Subsystem : string;
  promRegistry : R;
  FlushInterval : Duration;
  gauges : gmap string Prometheus.Gauge;
  converter : MetricConverter;
  keyNormalizer : Normalizer
}.

(** [optSetter]: [func(c *PrometheusConfig) error], the configuration
    passed through. *)
Definition optSetter : Type := PrometheusConfig -> PrometheusConfig * error.

Definition Converter (converter : MetricConverter) : optSetter :=
  fun c =>
    (mkPrometheusConfig (Namespace c) (registry c) (Subsystem c)
       (promRegistry c) (FlushInterval c) (gauges c) converter
       (keyNormalizer c),
     nil_error).

Definition KeyNormalizer (normalizer : Normalizer) : optSetter :=
  fun c =>
    (mkPrometheusConfig (Namespace c) (registry c) (Subsystem c)
       (promRegistry c) (FlushInterval c) (gauges c) (converter c)
       normalizer,
     nil_error).

Definition FlushRate (duration : Duration) : optSetter :=
  fun c =>
    (mkPrometheusConfig (Namespace c) (registry c) (Subsystem c)
       (promRegistry c) duration (gauges c) (converter c)
       (keyNormalizer c),
     nil_error).

(** The loop [for _, s := range setters] of [NewPrometheusProvider]. *)
Fixpoint applySetters (setters : list optSetter) (conf : PrometheusConfig)
  : option PrometheusConfig * error :=
  match setters with
  | [] => (Some conf, nil_error)
  | s :: setters' =>
      let '(conf', err) := s conf in
      match err with
      | Some e => (None, Some e)
      | None => applySetters setters' conf'
      end
  end.

(** [NewPrometheusProvider]; a nil [*PrometheusConfig] is [None]. *)
Definition NewPrometheusProvider (r : Metrics.Registry)
    (namespace subsystem : string) (promRegistry : R)
    (setters : list optSetter) : option PrometheusConfig * error :=
  let conf := {|
    Namespace := namespace;
    Subsystem := subsystem;
    registry := r;
    promRegistry := promRegistry;
    FlushInterval := 15 * Second;
    gauges := ∅;
    converter := DefaultMetricConverter;
    keyNormalizer := DefaultKeyNormalizer
  |} in
  applySetters setters conf.

End Exporter.

Arguments PrometheusConfig : clear implicits.
Arguments optSetter : clear implicits.

(** [LowerCaseKeyNormalizer].  [strings.ToLower] maps runes by the Unicode
    tables of the Go library; it is taken as a parameter
    ([GoStrings.ToLowerASCII] is its restriction to ASCII strings). *)
Definition LowerCaseKeyNormalizer (ToLower : string -> string) (key : string)
  : string :=
  ToLower (DefaultKeyNormalizer key).

(** ** One pass *)

(** The outcome of a call that may panic: it returns [a] in state [s], or
    panics in state [s]. *)
Inductive Result (S A : Type) : Type :=
| Ok (a : A) (s : S)
| Panic (s : S).
Arguments Ok {S A} a s.
Arguments Panic {S A} s.

Section Publisher.

Context {R : Type} `{!Prometheus.Registerer R}.

(** The state a pass runs in: the configuration behind the pointer [c],
    the value cells of the gauges created so far (a gauge's [addr] indexes
    them), and the calls made to the client library, oldest first. *)
Record World : Type := mkWorld {
  conf : PrometheusConfig R;
  cells : list float64;
  calls : list Prometheus.Call
}.

Definition M (A : Type) : Type := World -> Result World A.

#[export] Instance M_ret : MRet M := fun A a w => Ok a w.
#[export] Instance M_bind : MBind M := fun A B f m w =>
  match m w with
  | Ok a w' => f a w'
  | Panic w' => Panic w'
  end.

(** Reading a field of [c]. *)
Definition get {A : Type} (field : PrometheusConfig R -> A) : M A :=
  fun w => Ok (field (conf w)) w.

(** [prometheus.NewGauge(opts)]: a new cell, holding 0. *)
Definition NewGauge (opts : Prometheus.GaugeOpts) : M Prometheus.Gauge :=
  fun w =>
    Ok (Prometheus.mkGauge (length (cells w)) opts)
       (mkWorld (conf w) (cells w ++ [Float64.zero]) (calls w)).

(** [c.promRegistry.MustRegister(g)]. *)
Definition promRegistry_MustRegister (g : Prometheus.Gauge) : M unit :=
  fun w =>
    let c := conf w in
    let calls' := calls w ++ [Prometheus.CallMustRegister g] in
    match Prometheus.MustRegister (promRegistry c) g with
    | Some r' =>
        Ok tt (mkWorld
                 (mkPrometheusConfig (Namespace c) (registry c) (Subsystem c)
                    r' (FlushInterval c) (gauges c) (converter c)
                    (keyNormalizer c))
                 (cells w) calls')
    | None => Panic (mkWorld c (cells w) calls')
    end.

(** [c.gauges[key] = g]. *)
Definition gauges_store (key : string) (g : Prometheus.Gauge) : M unit :=
  fun w =>
    let c := conf w in
    Ok tt (mkWorld
             (mkPrometheusConfig (Namespace c) (registry c) (Subsystem c)
                (promRegistry c) (FlushInterval c) (<[key := g]> (gauges c))
                (converter c) (keyNormalizer c))
             (cells w) (calls w)).

(** [g.Set(val)]. *)
Definition Gauge_Set (g : Prometheus.Gauge) (val : float64) : M unit :=
  fun w =>
    Ok tt (mkWorld (conf w) (<[Prometheus.addr g := val]> (cells w))
             (calls w ++ [Prometheus.CallSet g val])).

(** [gaugeFromNameAndValue]. *)
Definition gaugeFromNameAndValue (name : string) (val : float64) : M unit :=
  namespace ← get Namespace;
  subsystem ← get Subsystem;
  let key := GoFmt.Sprintf "%s_%s_%s" [namespace; subsystem; name] in
  cache ← get gauges;
  match cache !! key with
  | Some g => Gauge_Set g val
  | None =>
      keyNormalizer ← get keyNormalizer;
      g ← NewGauge {|
             Prometheus.Namespace := keyNormalizer namespace;
             Prometheus.Subsystem := keyNormalizer subsystem;
             Prometheus.Name := keyNormalizer name;
             Prometheus.Help := name
           |};
      promRegistry_MustRegister g;;
      gauges_store key g;;
      Gauge_Set g val
  end.

(** [Registry.Each]: the callback on every entry, in turn. *)
Fixpoint Each (r : Metrics.Registry) (f : string -> Metric -> M unit)
  : M unit :=
  match r with
  | [] => mret tt
  | (name, i) :: r' => f name i;; Each r' f
  end.

(** [UpdatePrometheusMetricsOnce]. *)
Definition UpdatePrometheusMetricsOnce : M error :=
  r ← get registry;
  Each r (fun name i =>
    converter ← get converter;
    let '(value, err) := converter name i in
    match err with
    | None => gaugeFromNameAndValue name value
    | Some _ => mret tt
    end);;
  mret nil_error.

(** The host application changes the content of the source registry
    between passes. *)
Definition registry_update (r : Metrics.Registry) : M unit :=
  fun w =>
    let c := conf w in
    Ok tt (mkWorld
             (mkPrometheusConfig (Namespace c) r (Subsystem c)
                (promRegistry c) (FlushInterval c) (gauges c)
                (converter c) (keyNormalizer c))
             (cells w) (calls w)).

(** A run of passes, one for each content of the source registry in [rs];
    every pass returns [nil], which the run drops as
    [UpdatePrometheusMetrics] does. *)
Fixpoint passes (rs : list Metrics.Registry) : M unit :=
  match rs with
  | [] => mret tt
  | r :: rs' =>
      registry_update r;; UpdatePrometheusMetricsOnce;; passes rs'
  end.

(** The world right after [NewPrometheusProvider] returned [c]. *)
Definition start (c : PrometheusConfig R) : World := mkWorld c [] [].

End Publisher.

Arguments World : clear implicits.
Arguments M : clear implicits.

(** ** Notions used to state the properties *)

(** Whether a call ran to its end, and the state it ended or panicked in. *)
Definition panicked {S A : Type} (r : Result S A) : bool :=
  match r with Ok _ _ => false | Panic _ => true end.

Definition final {S A : Type} (r : Result S A) : S :=
  match r with Ok _ s => s | Panic s => s end.

(** A gauge is built for one metric name, which it keeps as its help text;
    calls are counted by that name. *)
Definition registers (name : string) (c : Prometheus.Call) : bool :=
  match c with
  | Prometheus.CallMustRegister g =>
      bool_decide (Prometheus.Help (Prometheus.desc g) = name)
  | Prometheus.CallSet _ _ => false
  end.

Definition sets (name : string) (c : Prometheus.Call) : bool :=
  match c with
  | Prometheus.CallMustRegister _ => false
  | Prometheus.CallSet g _ =>
      bool_decide (Prometheus.Help (Prometheus.desc g) = name)
  end.

Fixpoint count (p : Prometheus.Call -> bool) (cs : list Prometheus.Call) : nat :=
  match cs with
  | [] => 0
  | c :: cs' => ((if p c then 1 else 0) + count p cs')%nat
  end.

(** The composite key of a metric name, written out. *)
Definition compositeKey {R : Type} (c : PrometheusConfig R) (name : string)
  : string :=
  Namespace c +:+ "_" +:+ Subsystem c +:+ "_" +:+ name.

(** A call panicked because the registry refused the gauge of the last
    call made. *)
Definition refused {R : Type} `{!Prometheus.Registerer R} (w : World R) : Prop :=
  exists g,
    last (calls w) = Some (Prometheus.CallMustRegister g) /\
    Prometheus.MustRegister (promRegistry (conf w)) g = None.


(** Two states agree on the settings an upsert reads. *)
Definition sameSettings {R : Type} (w w' : World R) : Prop :=
  Namespace (conf w') = Namespace (conf w) /\
  Subsystem (conf w') = Subsystem (conf w) /\
  converter (conf w') = converter (conf w) /\
  keyNormalizer (conf w') = keyNormalizer (conf w).

(** The calls one registry entry causes in a pass that ends in [w']:
    none when its conversion fails; otherwise a [Set] of the converted
    value on the gauge cached for the name, after its registration when the
    gauge is new. *)
Definition entryCalls {R : Type} (convert : MetricConverter)
    (w' : World R) (entry : string * Metric) (cs : list Prometheus.Call)
  : Prop :=
  match convert entry.1 entry.2 with
  | (value, None) =>
      exists g,
        gauges (conf w') !! compositeKey (conf w') entry.1 = Some g /\
        (cs = [Prometheus.CallSet g value] \/
         cs = [Prometheus.CallMustRegister g; Prometheus.CallSet g value])
  | (_, Some _) => cs = []
  end.

(** Every cached gauge sits under the composite key of the name it was
    built for. *)
Definition cacheByName {R : Type} (w : World R) : Prop :=
  forall k g,
    gauges (conf w) !! k = Some g ->
    k = compositeKey (conf w) (Prometheus.Help (Prometheus.desc g)).

(** All of [setters] succeed in turn, leading from [c] to [c']. *)
Inductive applied {R : Type}
  : PrometheusConfig R -> list (optSetter R) -> PrometheusConfig R -> Prop :=
| applied_nil c : applied c [] c
| applied_cons c s c' setters c'' :
    s c = (c', nil_error) ->
    applied c' setters c'' ->
    applied c (s :: setters) c''.

(** A setter that leaves a field as it is. *)
Definition keeps {R A : Type} (field : PrometheusConfig R -> A)
    (s : optSetter R) : Prop :=
  forall c, field (s c).1 = field c.

(** The option setters the package ships. *)
Definition shipped {R : Type} (s : optSetter R) : Prop :=
  (exists converter, s = Converter converter) \/
  (exists normalizer, s = KeyNormalizer normalizer) \/
  (exists duration, s = FlushRate duration).

(** ** Reference definitions, after the description of the package *)

(** The normalizer by its description: each of the characters space, [.],
    [-], [=] becomes [_], every other character stays. *)
Definition normalizeByte (c : ascii) : ascii :=
  if bool_decide (c ∈ [" "; "."; "-"; "="]%char) then "_"%char else c.

Definition DefaultKeyNormalizer_reference (key : string) : string :=
  GoStrings.map normalizeByte key.

(** The converter by its description: a value or a conversion failure with
    its message.  The description of this table is silent on a histogram
    without samples, so is the reference ([None]). *)
Definition DefaultMetricConverter_reference (name : string) (i : Metric)
  : option (float64 + string) :=
  match view i with
  | Counter count => Some (inl (Float64.of_int64 count))
  | Gauge value => Some (inl (Float64.of_int64 value))
  | GaugeFloat64 value => Some (inl value)
  | Histogram samples =>
      match last samples with
      | Some x => Some (inl (Float64.of_int64 x))
      | None => None
      end
  | Meter rate1 => Some (inl rate1)
  | Timer rate1 => Some (inl rate1)
  | Other =>
      Some (inr ("metric '" +:+ name +:+ "' has unknown type: " +:+ TypeOf i))
  end.

(** ** Sample data *)

Module Sample.

Definition counter (n : Z) : Metric :=
  mkMetric "*metrics.StandardCounter" (Counter n).

Definition emptyHistogram : Metric :=
  mkMetric "*metrics.StandardHistogram" (Histogram []).

Definition unsupported : Metric := mkMetric "string" Other.

(** A provider over an empty Prometheus registry, as the tests build it. *)
Definition provider (r : Metrics.Registry)
    (setters : list (optSetter Prometheus.Registry))
  : PrometheusConfig Prometheus.Registry :=
  default
    (mkPrometheusConfig "" [] "" [] 0 ∅ DefaultMetricConverter
       DefaultKeyNormalizer)
    (NewPrometheusProvider r "test" "subsys" [] setters).1.

Definition lowerCase : Normalizer :=
  LowerCaseKeyNormalizer GoStrings.ToLowerASCII.

(** Two names that differ before normalization only. *)
Definition colliding : Metrics.Registry :=
  [("a.b", counter 1); ("a_b", counter 2)].

Definition mixed (n : Z) : Metrics.Registry :=
  [("Counter", counter n); ("bad", unsupported); ("empty", emptyHistogram)].

Definition two (n m : Z) : Metrics.Registry :=
  [("requests", counter n); ("errors", counter m)].

Definition failing : optSetter Prometheus.Registry :=
  fun c => (c, Some "invalid interval").

(** Three passes over the same two names; the values change and so does
    the order in which [Each] visits the entries. *)
Definition names : list string := ["requests"; "errors"].

Definition run : list Metrics.Registry :=
  [two 2 0; two 15 1; [("errors", counter 3); ("requests", counter 20)]].

End Sample.

(** ** Further notions *)

Definition isMustRegister (c : Prometheus.Call) : bool :=
  match c with
  | Prometheus.CallMustRegister _ => true
  | Prometheus.CallSet _ _ => false
  end.

Definition isSet (c : Prometheus.Call) : bool :=
  match c with
  | Prometheus.CallMustRegister _ => false
  | Prometheus.CallSet _ _ => true
  end.

(** Every cached gauge has its value cell. *)
Definition cellsAllocated {R : Type} (w : World R) : Prop :=
  forall k g,
    gauges (conf w) !! k = Some g ->
    (Prometheus.addr g < length (cells w))%nat.

(** Gauges cached under different keys have different value cells. *)
Definition cellsDistinct {R : Type} (w : World R) : Prop :=
  forall k1 k2 g1 g2,
    gauges (conf w) !! k1 = Some g1 ->
    gauges (conf w) !! k2 = Some g2 ->
    Prometheus.addr g1 = Prometheus.addr g2 ->
    k1 = k2.

(** The shape of the states that passes produce from a new provider. *)
Definition wellFormed {R : Type} (w : World R) : Prop :=
  cacheByName w /\ cellsAllocated w /\ cellsDistinct w.

(** [w'] continues [w]: the settings are the same, no cached gauge was
    dropped or replaced, no value cell was freed and the calls of [w] are
    the first calls of [w']. *)
Definition extends {R : Type} (w w' : World R) : Prop :=
  sameSettings w w' /\
  FlushInterval (conf w') = FlushInterval (conf w) /\
  gauges (conf w) ⊆ gauges (conf w') /\
  (length (cells w) <= length (cells w'))%nat /\
  exists new, calls w' = calls w ++ new.

(** Sample states. *)
Module SampleRun.

(** A new provider over a counter, a value of an unsupported type and a
    histogram without samples. *)
Definition fresh (n : Z) : World Prometheus.Registry :=
  start (Sample.provider (Sample.mixed n) []).

(** The state after a first pass, the counter having moved on since. *)
Definition warm (n m : Z) : World Prometheus.Registry :=
  final (registry_update (Sample.mixed m)
           (final (UpdatePrometheusMetricsOnce (fresh n)))).

(** A provider whose converter returns a constant, as in the tests. *)
Definition constant (v : float64) : World Prometheus.Registry :=
  start (Sample.provider (Sample.mixed 2)
           [Converter (fun _ _ => (v, nil_error))]).

End SampleRun.

(** ** The first version of the exporter

    The source file opens with the earlier version of the package: the
    converter does not get the metric name, the interval is an argument of
    the constructor, the converter is replaced by a method, and the
    normalizer is the fixed method [flattenKey]. *)

Module V1.

Definition MetricConverter : Type := Metric -> float64 * error.

(** [DefaultMetricConverter]. *)
Definition DefaultMetricConverter (i : Metric) : float64 * error :=
  let unknown :=
    (Float64.zero, GoFmt.Errorf "unknown type to convert: %s" [TypeOf i]) in
  match view i with
  | Counter count => (Float64.of_int64 count, nil_error)
  | Gauge value => (Float64.of_int64 value, nil_error)
  | GaugeFloat64 value => (value, nil_error)
  | Histogram samples =>
      if (0 <? length samples)%nat then
        let lastSample := nth (length samples - 1) samples 0 in
        (Float64.of_int64 lastSample, nil_error)
      else unknown
  | Meter rate1 => (rate1, nil_error)
  | Timer rate1 => (rate1, nil_error)
  | Other => unknown
  end.

Section Exporter.

Context {R : Type}.

Record PrometheusConfig : Type := mkPrometheusConfig {
  namespace : string;
  Registry : Metrics.Registry;
  subsystem : string;
  promRegistry : R;
  FlushInterval : Duration;
  gauges : gmap string Prometheus.Gauge;
  converter : MetricConverter
}.

(** [NewPrometheusProvider]. *)
Definition NewPrometheusProvider (r : Metrics.Registry)
    (namespace subsystem : string) (promRegistry : R)
    (FlushInterval : Duration) : PrometheusConfig :=
  {| namespace := namespace;
     subsystem := subsystem;
     Registry := r;
     promRegistry := promRegistry;
     FlushInterval := FlushInterval;
     gauges := ∅;
     converter := DefaultMetricConverter |}.

(** [SetMetricConverter]: the configuration with [c.converter] replaced. *)
Definition SetMetricConverter (c : PrometheusConfig)
    (converter' : MetricConverter) : PrometheusConfig :=
  mkPrometheusConfig (namespace c) (Registry c) (subsystem c)
    (promRegistry c) (FlushInterval c) (gauges c) converter'.

(** [flattenKey]; the receiver is not used. *)
Definition flattenKey (c : PrometheusConfig) (key : string) : string :=
  let key := GoStrings.Replace key " " "_" (-1) in
  let key := GoStrings.Replace key "." "_" (-1) in
  let key := GoStrings.Replace key "-" "_" (-1) in
  let key := GoStrings.Replace key "=" "_" (-1) in
  key.

End Exporter.

Arguments PrometheusConfig : clear implicits.

Section Publisher.

Context {R : Type} `{!Prometheus.Registerer R}.

Record World : Type := mkWorld {
  conf : PrometheusConfig R;
  cells : list float64;
  calls : list Prometheus.Call
}.

Definition M (A : Type) : Type := World -> Result World A.

#[export] Instance M_ret : MRet M := fun A a w => Ok a w.
#[export] Instance M_bind : MBind M := fun A B f m w =>
  match m w with
  | Ok a w' => f a w'
  | Panic w' => Panic w'
  end.

(** Reading through the pointer [c]. *)
Definition get {A : Type} (field : PrometheusConfig R -> A) : M A :=
  fun w => Ok (field (conf w)) w.

(** [prometheus.NewGauge(opts)]. *)
Definition NewGauge (opts : Prometheus.GaugeOpts) : M Prometheus.Gauge :=
  fun w =>
    Ok (Prometheus.mkGauge (length (cells w)) opts)
       (mkWorld (conf w) (cells w ++ [Float64.zero]) (calls w)).

(** [c.promRegistry.MustRegister(g)]. *)
Definition promRegistry_MustRegister (g : Prometheus.Gauge) : M unit :=
  fun w =>
    let c := conf w in
    let calls' := calls w ++ [Prometheus.CallMustRegister g] in
    match Prometheus.MustRegister (promRegistry c) g with
    | Some r' =>
        Ok tt (mkWorld
                 (mkPrometheusConfig (namespace c) (Registry c)
                    (subsystem c) r' (FlushInterval c) (gauges c)
                    (converter c))
                 (cells w) calls')
    | None => Panic (mkWorld c (cells w) calls')
    end.

(** [c.gauges[key] = g]. *)
Definition gauges_store (key : string) (g : Prometheus.Gauge) : M unit :=
  fun w =>
    let c := conf w in
    Ok tt (mkWorld
             (mkPrometheusConfig (namespace c) (Registry c) (subsystem c)
                (promRegistry c) (FlushInterval c) (<[key := g]> (gauges c))
                (converter c))
             (cells w) (calls w)).

(** [g.Set(val)]. *)
Definition Gauge_Set (g : Prometheus.Gauge) (val : float64) : M unit :=
  fun w =>
    Ok tt (mkWorld (conf w) (<[Prometheus.addr g := val]> (cells w))
             (calls w ++ [Prometheus.CallSet g val])).

(** [gaugeFromNameAndValue]. *)
Definition gaugeFromNameAndValue (name : string) (val : float64) : M unit :=
  c ← get (fun c => c);
  let key := GoFmt.Sprintf "%s_%s_%s" [namespace c; subsystem c; name] in
  match gauges c !! key with
  | Some g => Gauge_Set g val
  | None =>
      g ← NewGauge {|
             Prometheus.Namespace := flattenKey c (namespace c);
             Prometheus.Subsystem := flattenKey c (subsystem c);
             Prometheus.Name := flattenKey c name;
             Prometheus.Help := name
           |};
      promRegistry_MustRegister g;;
      gauges_store key g;;
      Gauge_Set g val
  end.

(** [Registry.Each]. *)
Fixpoint Each (r : Metrics.Registry) (f : string -> Metric -> M unit)
  : M unit :=
  match r with
  | [] => mret tt
  | (name, i) :: r' => f name i;; Each r' f
  end.

(** [UpdatePrometheusMetricsOnce]. *)
Definition UpdatePrometheusMetricsOnce : M error :=
  r ← get Registry;
  Each r (fun name i =>
    converter ← get converter;
    let '(value, err) := converter i in
    match err with
    | None => gaugeFromNameAndValue name value
    | Some _ => mret tt
    end);;
  mret nil_error.

End Publisher.

Arguments World : clear implicits.
Arguments M : clear implicits.

End V1.
Import (hints) V1.

(** A configuration of the first version as one of the second: the
    normalizer is [DefaultKeyNormalizer], the converter drops the name. *)
Definition upgrade {R : Type} (c : V1.PrometheusConfig R) : PrometheusConfig R :=
  mkPrometheusConfig (V1.namespace c) (V1.Registry c) (V1.subsystem c)
    (V1.promRegistry c) (V1.FlushInterval c) (V1.gauges c)
    (fun _ i => V1.converter c i) DefaultKeyNormalizer.

Definition upgradeWorld {R : Type} (w : V1.World R) : World R :=
  mkWorld (upgrade (V1.conf w)) (V1.cells w) (V1.calls w).

(** The state of an outcome, mapped. *)
Definition mapState {S S' A : Type} (f : S -> S') (r : Result S A)
  : Result S' A :=
  match r with
  | Ok a s => Ok a (f s)
  | Panic s => Panic (f s)
  end.

(** A state with another converter, as the setter [Converter] installs
    it. *)
Definition withConverter {R : Type} (f : MetricConverter) (w : World R)
  : World R :=
  mkWorld (Converter f (conf w)).1 (cells w) (calls w).

(** ** Notions for the duplicate-refusing Prometheus registry *)

(** The options of the gauge built for a name. *)
Definition descriptorOf {R : Type} (c : PrometheusConfig R) (name : string)
  : Prometheus.GaugeOpts :=
  {| Prometheus.Namespace := keyNormalizer c (Namespace c);
     Prometheus.Subsystem := keyNormalizer c (Subsystem c);
     Prometheus.Name := keyNormalizer c name;
     Prometheus.Help := name |}.

(** The cache and the registry agree: every cached gauge has the options
    built for its name, its fully-qualified name is held by the registry,
    and gauges cached under different keys have different fully-qualified
    names. *)
Definition registryInv (w : World Prometheus.Registry) : Prop :=
  cacheByName w /\
  (forall k g,
     gauges (conf w) !! k = Some g ->
     Prometheus.desc g
     = descriptorOf (conf w) (Prometheus.Help (Prometheus.desc g)) /\
     Prometheus.fqName g ∈ promRegistry (conf w)) /\
  (forall k1 k2 g1 g2,
     gauges (conf w) !! k1 = Some g1 ->
     gauges (conf w) !! k2 = Some g2 ->
     Prometheus.fqName g1 = Prometheus.fqName g2 ->
     k1 = k2).

(** * Properties *)

#[local] Set Warnings "-clear-no-such-hyp".

(** ** Strings *)

Section StringFacts.

Lemma append_empty_r (s : string) : s +:+ "" = s.
Proof.
  induction s as [|c s IH]; [done|].
  change (String c s +:+ "") with (String c (s +:+ "")). by rewrite IH.
Qed.

Lemma append_assoc (s1 s2 s3 : string) :
  (s1 +:+ s2) +:+ s3 = s1 +:+ (s2 +:+ s3).
Proof.
  induction s1 as [|c s1 IH]; [done|].
  change (String c ((s1 +:+ s2) +:+ s3) = String c (s1 +:+ s2 +:+ s3)).
  by rewrite IH.
Qed.

Lemma map_map (f g : ascii -> ascii) (s : string) :
  GoStrings.map g (GoStrings.map f s) = GoStrings.map (fun c => g (f c)) s.
Proof. induction s as [|c s IH]; simpl; [done | by rewrite IH]. Qed.

Lemma map_ext (f g : ascii -> ascii) (s : string) :
  (forall c, f c = g c) -> GoStrings.map f s = GoStrings.map g s.
Proof.
  intros Hfg. induction s as [|c s IH]; simpl; [done|].
  by rewrite Hfg, IH.
Qed.

(** Replacing every occurrence of a one-byte pattern by another byte is a
    byte-wise map. *)
Lemma replace_from_byte (a b : ascii) (n : Z) (s : string) :
  n < 0 ->
  GoStrings.replace_from (String a "") (String b "") 0 n s
  = GoStrings.map (fun c => if Ascii.eqb c a then b else c) s.
Proof.
  revert n. induction s as [|c s IH]; intros n Hn; [done|].
  cbn [GoStrings.replace_from GoStrings.map GoStrings.HasPrefix String.length].
  assert (HP : forall t, GoStrings.HasPrefix t "" = true) by (by intros []).
  rewrite HP, andb_true_r.
  destruct (Z.eqb_spec n 0) as [?|_]; [lia|].
  cbn [negb andb Nat.sub].
  destruct (Ascii.eqb c a); cbn; rewrite IH by lia; done.
Qed.

Lemma Replace_byte (a b : ascii) (s : string) :
  a <> b ->
  GoStrings.Replace s (String a "") (String b "") (-1)
  = GoStrings.map (fun c => if Ascii.eqb c a then b else c) s.
Proof.
  intros Hab. unfold GoStrings.Replace.
  rewrite bool_decide_eq_false_2 by congruence.
  rewrite bool_decide_eq_false_2 by done.
  cbn [orb Z.eqb]. by apply replace_from_byte.
Qed.

(** The four replacements, one after the other, on one byte. *)
Lemma four_replacements (c : ascii) :
  (let c1 := if Ascii.eqb c " " then "_" else c in
   let c2 := if Ascii.eqb c1 "." then "_" else c1 in
   let c3 := if Ascii.eqb c2 "-" then "_" else c2 in
   if Ascii.eqb c3 "=" then "_" else c3)%char
  = normalizeByte c.
Proof.
  unfold normalizeByte. cbn zeta.
  destruct (Ascii.eqb_spec c " ") as [->|H1]; [done|].
  destruct (Ascii.eqb_spec c ".") as [->|H2]; [done|].
  destruct (Ascii.eqb_spec c "-") as [->|H3]; [done|].
  destruct (Ascii.eqb_spec c "=") as [->|H4]; [done|].
  rewrite bool_decide_eq_false_2; [done|].
  rewrite !elem_of_cons, elem_of_nil.
  intros [?|[?|[?|[?|[]]]]]; congruence.
Qed.

Lemma normalizeByte_idemp (c : ascii) :
  normalizeByte (normalizeByte c) = normalizeByte c.
Proof.
  unfold normalizeByte.
  destruct (bool_decide (c ∈ _)) eqn:E; [reflexivity|]. by rewrite E.
Qed.

Lemma DefaultKeyNormalizer_map (key : string) :
  DefaultKeyNormalizer key = GoStrings.map normalizeByte key.
Proof.
  unfold DefaultKeyNormalizer. cbn zeta.
  rewrite !Replace_byte by done. rewrite !map_map.
  apply map_ext, four_replacements.
Qed.

Lemma DefaultKeyNormalizer_idemp (key : string) :
  DefaultKeyNormalizer (DefaultKeyNormalizer key) = DefaultKeyNormalizer key.
Proof.
  rewrite !DefaultKeyNormalizer_map, map_map.
  apply map_ext, normalizeByte_idemp.
Qed.

(** The ASCII lower-casing has the two properties of [strings.ToLower]
    that idempotence of the lower-case normalizer rests on. *)
Lemma lowerByte_idemp (c : ascii) :
  GoStrings.lowerByte (GoStrings.lowerByte c) = GoStrings.lowerByte c.
Proof.
  unfold GoStrings.lowerByte. cbv zeta.
  destruct ((65 <=? N_of_ascii c) && (N_of_ascii c <=? 90))%N eqn:Hc;
    [|by rewrite Hc].
  apply andb_true_iff in Hc as [H1%N.leb_le H2%N.leb_le].
  rewrite N_ascii_embedding by lia.
  destruct ((65 <=? N_of_ascii c + 32) && (N_of_ascii c + 32 <=? 90))%N
    eqn:Hc'; [|done].
  apply andb_true_iff in Hc' as [_ H3%N.leb_le]. lia.
Qed.

Lemma lowerByte_normal (c : ascii) :
  normalizeByte c = c ->
  normalizeByte (GoStrings.lowerByte c) = GoStrings.lowerByte c.
Proof.
  intros Hc. unfold GoStrings.lowerByte. cbv zeta.
  destruct ((65 <=? N_of_ascii c) && (N_of_ascii c <=? 90))%N eqn:Hr;
    [|done].
  apply andb_true_iff in Hr as [H1%N.leb_le H2%N.leb_le].
  unfold normalizeByte. rewrite bool_decide_eq_false_2; [done|].
  rewrite !elem_of_cons, elem_of_nil.
  intros Hin.
  assert (N_of_ascii (ascii_of_N (N_of_ascii c + 32)) = N_of_ascii c + 32)%N
    as Hemb by (apply N_ascii_embedding; lia).
  destruct Hin as [E|[E|[E|[E|[]]]]]; rewrite E in Hemb; cbn in Hemb; lia.
Qed.

Lemma ToLowerASCII_idemp (s : string) :
  GoStrings.ToLowerASCII (GoStrings.ToLowerASCII s) = GoStrings.ToLowerASCII s.
Proof.
  unfold GoStrings.ToLowerASCII. rewrite map_map.
  apply map_ext, lowerByte_idemp.
Qed.

Lemma ToLowerASCII_normal (s : string) :
  DefaultKeyNormalizer s = s ->
  DefaultKeyNormalizer (GoStrings.ToLowerASCII s) = GoStrings.ToLowerASCII s.
Proof.
  rewrite !DefaultKeyNormalizer_map. unfold GoStrings.ToLowerASCII.
  induction s as [|c s IH]; [done|].
  cbn [GoStrings.map]. intros [= Hc Hs].
  by rewrite lowerByte_normal, IH.
Qed.

End StringFacts.

(** C7.  [DefaultKeyNormalizer] turns every space, [.], [-] and [=] of its
    argument into [_] and leaves every other character as it is (it is the
    byte-wise map of the reference definition), and
    [LowerCaseKeyNormalizer] is [DefaultKeyNormalizer] followed by the
    lower-casing of the result, whatever the lower-casing function. *)
Theorem DefaultKeyNormalizer_replaces_listed_characters :
  (forall key : string,
     DefaultKeyNormalizer key = DefaultKeyNormalizer_reference key) /\
  (forall (ToLower : string -> string) (key : string),
     LowerCaseKeyNormalizer ToLower key = ToLower (DefaultKeyNormalizer key)).
Proof. split; [exact DefaultKeyNormalizer_map | done]. Qed.

(** C8.  [DefaultKeyNormalizer] is idempotent, and so is
    [LowerCaseKeyNormalizer] for a lower-casing function that is idempotent
    and maps normalized strings to normalized strings, as [strings.ToLower]
    does. *)
Theorem normalizers_idempotent (ToLower : string -> string)
    (ToLower_idemp : forall s, ToLower (ToLower s) = ToLower s)
    (ToLower_normal : forall s,
       DefaultKeyNormalizer s = s ->
       DefaultKeyNormalizer (ToLower s) = ToLower s)
    (x : string) :
  DefaultKeyNormalizer (DefaultKeyNormalizer x) = DefaultKeyNormalizer x /\
  LowerCaseKeyNormalizer ToLower (LowerCaseKeyNormalizer ToLower x)
  = LowerCaseKeyNormalizer ToLower x.
Proof.
  split; [apply DefaultKeyNormalizer_idemp|].
  unfold LowerCaseKeyNormalizer.
  rewrite ToLower_normal by apply DefaultKeyNormalizer_idemp.
  apply ToLower_idemp.
Qed.

Lemma normalizers_idempotent_witness :
  DefaultKeyNormalizer (DefaultKeyNormalizer "Http.Requests-2xx=Ok now")
  = DefaultKeyNormalizer "Http.Requests-2xx=Ok now" /\
  Sample.lowerCase (Sample.lowerCase "Http.Requests-2xx=Ok now")
  = Sample.lowerCase "Http.Requests-2xx=Ok now".
Proof.
  exact (normalizers_idempotent GoStrings.ToLowerASCII ToLowerASCII_idemp
           ToLowerASCII_normal "Http.Requests-2xx=Ok now").
Defined.

(** ** The value converter *)

Lemma Sprintf_unknown_type (name ty : string) :
  GoFmt.Sprintf "metric '%s' has unknown type: %s" [name; ty]
  = "metric '" +:+ name +:+ "' has unknown type: " +:+ ty.
Proof.
  cbv -[String.append]. by rewrite append_empty_r.
Qed.

Lemma nth_last (samples : list Z) (d : Z) :
  nth (length samples - 1) samples d = default d (last samples).
Proof.
  rewrite nth_lookup, last_lookup. do 2 f_equal. lia.
Qed.

(** C3.  [DefaultMetricConverter] agrees with the reference definition
    wherever that one is defined: counters and integer gauges give their
    reading as [float64], float gauges their value, a histogram with samples
    the last sample, meters and timers the one-minute rate, all without
    error; a value of any other type gives an error with the message
    [metric '<name>' has unknown type: <type>].  The reference is undefined
    on histograms without samples only. *)
Theorem DefaultMetricConverter_refines_reference (name : string) (i : Metric) :
  match DefaultMetricConverter_reference name i with
  | Some (inl value) => DefaultMetricConverter name i = (value, nil_error)
  | Some (inr message) => (DefaultMetricConverter name i).2 = Some message
  | None => view i = Histogram []
  end.
Proof.
  unfold DefaultMetricConverter_reference, DefaultMetricConverter.
  destruct i as [ty v]; cbn [view TypeOf]. destruct v as [| | |samples| | |]; try done.
  - destruct samples as [|x samples] using rev_ind; [done|].
    rewrite last_snoc, nth_last, last_snoc, length_app. cbn [length].
    by replace (0 <? length samples + 1)%nat with true
      by (symmetry; apply Nat.ltb_lt; lia).
  - cbn [snd]. unfold GoFmt.Errorf. by rewrite Sprintf_unknown_type.
Qed.

(** ** The gauge cache *)

Section PublisherFacts.

Context {R : Type} `{!Prometheus.Registerer R}.

Implicit Types (w : World R) (name : string) (val : float64).

Lemma Sprintf_key (namespace subsystem name : string) :
  GoFmt.Sprintf "%s_%s_%s" [namespace; subsystem; name]
  = namespace +:+ "_" +:+ subsystem +:+ "_" +:+ name.
Proof. cbv -[String.append]. by rewrite append_empty_r. Qed.

Lemma compositeKey_inj (c : PrometheusConfig R) : Inj (=) (=) (compositeKey c).
Proof.
  intros n1 n2 Hk. unfold compositeKey in Hk.
  by do 4 apply (inj (String.append _)) in Hk.
Qed.

(** The gauge built for a name that is not cached yet. *)
Local Abbreviation newGauge w name :=
  (Prometheus.mkGauge (length (cells w))
     {| Prometheus.Namespace := keyNormalizer (conf w) (Namespace (conf w));
        Prometheus.Subsystem := keyNormalizer (conf w) (Subsystem (conf w));
        Prometheus.Name := keyNormalizer (conf w) name%string;
        Prometheus.Help := name |}).

Ltac unfold_M :=
  unfold gaugeFromNameAndValue, promRegistry_MustRegister, gauges_store,
    Gauge_Set, NewGauge, get, mbind, M_bind, mret, M_ret;
  cbn [conf cells calls Namespace Subsystem registry promRegistry gauges
       converter keyNormalizer FlushInterval Prometheus.addr Prometheus.desc].

Lemma gaugeFromNameAndValue_hit w name val g :
  gauges (conf w) !! compositeKey (conf w) name = Some g ->
  gaugeFromNameAndValue name val w
  = Ok tt (mkWorld (conf w) (<[Prometheus.addr g := val]> (cells w))
             (calls w ++ [Prometheus.CallSet g val])).
Proof.
  intros Hg. unfold_M. rewrite Sprintf_key.
  unfold compositeKey in Hg. by rewrite Hg.
Qed.

Lemma gaugeFromNameAndValue_miss w name val :
  gauges (conf w) !! compositeKey (conf w) name = None ->
  gaugeFromNameAndValue name val w
  = match Prometheus.MustRegister (promRegistry (conf w)) (newGauge w name) with
    | Some r' =>
        Ok tt
          (mkWorld
             (mkPrometheusConfig (Namespace (conf w)) (registry (conf w))
                (Subsystem (conf w)) r' (FlushInterval (conf w))
                (<[compositeKey (conf w) name := newGauge w name]>
                   (gauges (conf w)))
                (converter (conf w)) (keyNormalizer (conf w)))
             (<[length (cells w) := val]> (cells w ++ [Float64.zero]))
             ((calls w ++ [Prometheus.CallMustRegister (newGauge w name)])
                ++ [Prometheus.CallSet (newGauge w name) val]))
    | None =>
        Panic (mkWorld (conf w) (cells w ++ [Float64.zero])
                 (calls w ++ [Prometheus.CallMustRegister (newGauge w name)]))
    end.
Proof.
  intros Hg. unfold_M. rewrite Sprintf_key.
  unfold compositeKey in Hg. rewrite Hg.
  unfold_M. by destruct (Prometheus.MustRegister _ _).
Qed.

End PublisherFacts.

(** C5.  [gaugeFromNameAndValue] looks the gauge up, and stores a new one,
    under the key [namespace + "_" + subsystem + "_" + name] built from the
    raw components: a gauge cached under that key is set without any
    registration, and a new gauge is stored under that very key.  The
    normalizer of the configuration, whatever it is, has no part in the
    key. *)
Theorem gauge_cache_key_is_raw {R : Type} `{!Prometheus.Registerer R}
    (w : World R) (name : string) (val : float64) :
  let key :=
    Namespace (conf w) +:+ "_" +:+ Subsystem (conf w) +:+ "_" +:+ name in
  match gauges (conf w) !! key with
  | Some g =>
      exists w',
        gaugeFromNameAndValue name val w = Ok tt w' /\
        gauges (conf w') = gauges (conf w) /\
        calls w' = calls w ++ [Prometheus.CallSet g val]
  | None =>
      match gaugeFromNameAndValue name val w with
      | Ok _ w' =>
          exists g,
            gauges (conf w') = <[key := g]> (gauges (conf w)) /\
            calls w' = calls w ++
              [Prometheus.CallMustRegister g; Prometheus.CallSet g val]
      | Panic w' => gauges (conf w') = gauges (conf w)
      end
  end.
Proof.
  intros key. destruct (gauges (conf w) !! key) as [g|] eqn:Hg.
  - eexists. split; [by apply gaugeFromNameAndValue_hit|]. done.
  - rewrite gaugeFromNameAndValue_miss by done.
    destruct (Prometheus.MustRegister _ _); [|done].
    eexists. split; [done|]. cbn [calls]. by rewrite <- app_assoc.
Qed.

(** C6.  For a key seen for the first time, the gauge that
    [gaugeFromNameAndValue] hands to [MustRegister] has the normalizer
    applied to the namespace, to the subsystem and to the name, and the raw
    name as its help text; when the registration is accepted the gauge is
    cached and set. *)
Theorem new_gauge_descriptor {R : Type} `{!Prometheus.Registerer R}
    (w : World R) (name : string) (val : float64) :
  gauges (conf w) !! compositeKey (conf w) name = None ->
  exists g,
    Prometheus.desc g =
      {| Prometheus.Namespace := keyNormalizer (conf w) (Namespace (conf w));
         Prometheus.Subsystem := keyNormalizer (conf w) (Subsystem (conf w));
         Prometheus.Name := keyNormalizer (conf w) name;
         Prometheus.Help := name |} /\
    match gaugeFromNameAndValue name val w with
    | Ok _ w' =>
        calls w' = calls w ++
          [Prometheus.CallMustRegister g; Prometheus.CallSet g val] /\
        gauges (conf w') !! compositeKey (conf w) name = Some g
    | Panic w' =>
        calls w' = calls w ++ [Prometheus.CallMustRegister g] /\
        Prometheus.MustRegister (promRegistry (conf w)) g = None
    end.
Proof.
  intros Hg. eexists (Prometheus.mkGauge _ _). split; [done|].
  rewrite gaugeFromNameAndValue_miss by done.
  destruct (Prometheus.MustRegister _ _) eqn:Hreg; cbn [calls conf gauges].
  - split; [by rewrite <- app_assoc | by rewrite lookup_insert_eq].
  - done.
Qed.

Lemma new_gauge_descriptor_witness :
  let w := start (Sample.provider [] [KeyNormalizer Sample.lowerCase]) in
  exists g,
    Prometheus.desc g =
      {| Prometheus.Namespace := "test";
         Prometheus.Subsystem := "subsys";
         Prometheus.Name := "counter";
         Prometheus.Help := "Counter" |} /\
    match gaugeFromNameAndValue "Counter" (Float64.of_int64 15) w with
    | Ok _ w' =>
        calls w' = calls w ++
          [Prometheus.CallMustRegister g;
           Prometheus.CallSet g (Float64.of_int64 15)] /\
        gauges (conf w') !! "test_subsys_Counter" = Some g
    | Panic w' =>
        calls w' = calls w ++ [Prometheus.CallMustRegister g] /\
        Prometheus.MustRegister (promRegistry (conf w)) g = None
    end.
Proof.
  exact (new_gauge_descriptor
           (start (Sample.provider [] [KeyNormalizer Sample.lowerCase]))
           "Counter" (Float64.of_int64 15) eq_refl).
Defined.

(** ** One pass over the source registry *)

Section PassFacts.

Context {R : Type} `{!Prometheus.Registerer R}.

Implicit Types (w : World R) (r : Metrics.Registry).

(** The callback [UpdatePrometheusMetricsOnce] hands to [Each]. *)
Local Abbreviation callback :=
  (fun (name : string) (i : Metric) =>
     converter ← get converter;
     let '(value, err) := converter name i in
     match err with
     | None => gaugeFromNameAndValue name value
     | Some _ => mret tt
     end).

Lemma UpdatePrometheusMetricsOnce_unfold w :
  UpdatePrometheusMetricsOnce w
  = match Each (registry (conf w)) callback w with
    | Ok _ w' => Ok nil_error w'
    | Panic w' => Panic w'
    end.
Proof. done. Qed.

Lemma Each_cons name i r (f : string -> Metric -> M R unit) w :
  Each ((name, i) :: r) f w
  = match f name i w with
    | Ok _ w1 => Each r f w1
    | Panic w1 => Panic w1
    end.
Proof. done. Qed.

Lemma callback_unfold name i w :
  callback name i w
  = match (converter (conf w) name i).2 with
    | None => gaugeFromNameAndValue name (converter (conf w) name i).1 w
    | Some _ => Ok tt w
    end.
Proof.
  unfold mbind, M_bind, get. by destruct (converter (conf w) name i) as [v [e|]].
Qed.

Lemma sameSettings_refl w : sameSettings w w.
Proof. by repeat split. Qed.

Lemma sameSettings_trans w1 w2 w3 :
  sameSettings w1 w2 -> sameSettings w2 w3 -> sameSettings w1 w3.
Proof.
  unfold sameSettings. intros (?&?&?&?) (?&?&?&?).
  repeat split; congruence.
Qed.

Lemma sameSettings_key w w' :
  sameSettings w w' -> compositeKey (conf w') = compositeKey (conf w).
Proof. intros (Hn&Hs&_). unfold compositeKey. by rewrite Hn, Hs. Qed.

(** What one upsert does, whichever way it goes. *)
Lemma gaugeFromNameAndValue_step w name val :
  match gaugeFromNameAndValue name val w with
  | Ok _ w' =>
      sameSettings w w' /\
      gauges (conf w) ⊆ gauges (conf w') /\
      exists g,
        gauges (conf w') !! compositeKey (conf w) name = Some g /\
        (calls w' = calls w ++ [Prometheus.CallSet g val] \/
         calls w' = calls w ++
           [Prometheus.CallMustRegister g; Prometheus.CallSet g val])
  | Panic w' => refused w'
  end.
Proof.
  destruct (gauges (conf w) !! compositeKey (conf w) name) as [g|] eqn:Hg.
  - rewrite (gaugeFromNameAndValue_hit _ _ _ g) by done.
    split; [by repeat split|]. split; [done|].
    exists g. by split; [|left].
  - rewrite gaugeFromNameAndValue_miss by done.
    destruct (Prometheus.MustRegister _ _) eqn:Hreg.
    + split; [by repeat split|]. cbn [conf gauges calls].
      split; [by apply insert_subseteq|].
      eexists. split; [by apply lookup_insert_eq|].
      right. by rewrite <- app_assoc.
    + eexists. cbn [conf calls promRegistry]. by rewrite last_snoc.
Qed.

(** The calls of a pass are those of its entries, in turn; an entry whose
    conversion fails contributes none. *)
Lemma Each_calls r w :
  match Each r callback w with
  | Ok _ w' =>
      sameSettings w w' /\
      gauges (conf w) ⊆ gauges (conf w') /\
      exists per,
        calls w' = calls w ++ concat per /\
        Forall2 (entryCalls (converter (conf w)) w') r per
  | Panic w' => refused w'
  end.
Proof.
  revert w. induction r as [|[name i] r IH]; intros w.
  { split; [apply sameSettings_refl|]. split; [done|].
    exists []. split; [by rewrite app_nil_r | constructor]. }
  rewrite Each_cons, callback_unfold.
  destruct (converter (conf w) name i) as [v [e|]] eqn:Hconv; cbn [fst snd].
  - specialize (IH w). destruct (Each r _ w) as [[] w'|w']; [|done].
    destruct IH as (Hs & Hsub & per & Hcalls & Hper).
    split; [done|]. split; [done|].
    exists ([] :: per). split; [done|].
    constructor; [|done]. unfold entryCalls. cbn [fst snd]. by rewrite Hconv.
  - pose proof (gaugeFromNameAndValue_step w name v) as Hstep.
    destruct (gaugeFromNameAndValue name v w) as [[] w1|w1]; [|done].
    destruct Hstep as (Hs1 & Hsub1 & g & Hg & Hcalls1).
    specialize (IH w1). destruct (Each r _ w1) as [[] w'|w']; [|done].
    destruct IH as (Hs & Hsub & per & Hcalls & Hper).
    assert (Hconv1 : converter (conf w1) = converter (conf w))
      by apply Hs1.
    split; [by eapply sameSettings_trans|].
    split; [by etrans|].
    assert (Hg' : gauges (conf w') !! compositeKey (conf w') name = Some g).
    { rewrite (sameSettings_key w w') by (by eapply sameSettings_trans).
      by eapply lookup_weaken. }
    rewrite Hconv1 in Hper.
    destruct Hcalls1 as [Hc1|Hc1].
    + exists ([Prometheus.CallSet g v] :: per).
      split; [by rewrite Hcalls, Hc1, <- app_assoc|].
      constructor; [|done]. unfold entryCalls. cbn [fst snd]. rewrite Hconv.
      exists g. by split; [|left].
    + exists ([Prometheus.CallMustRegister g; Prometheus.CallSet g v] :: per).
      split; [by rewrite Hcalls, Hc1, <- app_assoc|].
      constructor; [|done]. unfold entryCalls. cbn [fst snd]. rewrite Hconv.
      exists g. by split; [|right].
Qed.

End PassFacts.

(** C1, as amended.  For a histogram without samples
    [DefaultMetricConverter] returns 0.0 together with a non-nil error, so
    that a pass with this converter skips the metric: it registers and sets
    no gauge for it, and no 0 is published. *)
Theorem empty_histogram_is_skipped {R : Type} `{!Prometheus.Registerer R}
    (w : World R) (name : string) (i : Metric) :
  view i = Histogram [] ->
  converter (conf w) = DefaultMetricConverter ->
  registry (conf w) = [(name, i)] ->
  (exists message,
     DefaultMetricConverter name i = (Float64.zero, Some message)) /\
  UpdatePrometheusMetricsOnce w = Ok nil_error w.
Proof.
  intros Hi Hconv Hreg.
  assert (Hc : exists message,
             DefaultMetricConverter name i = (Float64.zero, Some message)).
  { unfold DefaultMetricConverter. rewrite Hi. cbn. by eexists. }
  split; [done|]. destruct Hc as [message Hc].
  rewrite UpdatePrometheusMetricsOnce_unfold, Hreg, Each_cons.
  unfold mbind, M_bind, get. by rewrite Hconv, Hc.
Qed.

Lemma empty_histogram_is_skipped_witness :
  let w := start (Sample.provider [("latency", Sample.emptyHistogram)] []) in
  (exists message,
     DefaultMetricConverter "latency" Sample.emptyHistogram
     = (Float64.zero, Some message)) /\
  UpdatePrometheusMetricsOnce w = Ok nil_error w.
Proof.
  exact (empty_histogram_is_skipped
           (start (Sample.provider [("latency", Sample.emptyHistogram)] []))
           "latency" Sample.emptyHistogram eq_refl eq_refl eq_refl).
Defined.

(** C1, as stated, fails: the conversion of a histogram without samples
    does not succeed with 0.0, it ends in the final [return] of the
    function, which carries an error. *)
Lemma empty_histogram_is_an_error :
  DefaultMetricConverter "latency" Sample.emptyHistogram
  = (Float64.zero,
     Some "metric 'latency' has unknown type: *metrics.StandardHistogram") /\
  DefaultMetricConverter "latency" Sample.emptyHistogram
  <> (Float64.zero, nil_error).
Proof. split; [reflexivity | discriminate]. Qed.

Section RefusedRegistrations.

Context {R : Type} `{!Prometheus.Registerer R}.

Implicit Types (w : World R) (r : Metrics.Registry).

Local Abbreviation callback :=
  (fun (name : string) (i : Metric) =>
     converter ← get converter;
     let '(value, err) := converter name i in
     match err with
     | None => gaugeFromNameAndValue name value
     | Some _ => mret tt
     end).




End RefusedRegistrations.



(** The pass over a counter, a value of an unsupported type and a histogram
    without samples: one registration and one set, for the counter. *)
Example UpdatePrometheusMetricsOnce_mixed :
  let out :=
    UpdatePrometheusMetricsOnce
      (start (Sample.provider (Sample.mixed 15)
                [KeyNormalizer Sample.lowerCase])) in
  let g :=
    Prometheus.mkGauge 0
      (Prometheus.mkGaugeOpts "test" "subsys" "counter" "Counter") in
  panicked out = false /\
  calls (final out)
  = [Prometheus.CallMustRegister g;
     Prometheus.CallSet g (Float64.of_int64 15)] /\
  promRegistry (conf (final out)) = ["test_subsys_counter"].
Proof. vm_compute. done. Qed.

(** ** The configuration builder *)

Section BuilderFacts.

Context {R : Type}.

Implicit Types (c : PrometheusConfig R) (setters : list (optSetter R)).

(** The loop over the setters ends with a configuration when all of them
    succeed in turn, and with the error of the first one that fails. *)
Lemma applySetters_spec setters c0 :
  match applySetters setters c0 with
  | (Some c, None) => applied c0 setters c
  | (None, Some e) =>
      exists pre s post c1 c2,
        setters = pre ++ s :: post /\ applied c0 pre c1 /\ s c1 = (c2, Some e)
  | _ => False
  end.
Proof.
  revert c0. induction setters as [|s setters IH]; intros c0; cbn.
  { constructor. }
  destruct (s c0) as [c1 [e|]] eqn:Hs.
  - exists [], s, setters, c0, c1. split; [done|]. split; [constructor | done].
  - specialize (IH c1).
    destruct (applySetters setters c1) as [[c|] [e|]]; try done.
    + by econstructor.
    + destruct IH as (pre & s' & post & c2 & c3 & -> & Hpre & Hs').
      exists (s :: pre), s', post, c2, c3.
      split; [done|]. split; [by econstructor | done].
Qed.

Lemma applied_keeps {A : Type} (field : PrometheusConfig R -> A) c0 setters c :
  applied c0 setters c -> Forall (keeps field) setters -> field c = field c0.
Proof.
  induction 1 as [|c0 s c1 setters c2 Hs _ IH]; [done|].
  intros [Hk Hks]%Forall_cons. rewrite IH by done.
  specialize (Hk c0). by rewrite Hs in Hk.
Qed.

Lemma shipped_succeeds (s : optSetter R) c : shipped s -> (s c).2 = nil_error.
Proof. by intros [[? ->]|[[? ->]|[? ->]]]. Qed.

Lemma applySetters_shipped setters c0 :
  Forall shipped setters -> exists c, applySetters setters c0 = (Some c, nil_error).
Proof.
  revert c0. induction setters as [|s setters IH]; intros c0 Hall; cbn.
  { by eexists. }
  apply Forall_cons in Hall as [Hs Hall].
  pose proof (shipped_succeeds s c0 Hs) as He.
  destruct (s c0) as [c1 e]. cbn in He. subst e. by apply IH.
Qed.

End BuilderFacts.

(** C9.  [NewPrometheusProvider] applies the setters in order and fails
    closed: its result is either no configuration together with the error
    of the first setter that fails (the setters before it having succeeded
    in turn), or a configuration without error, reached by all setters in
    turn from the defaults.  In that configuration an option that no setter
    touches holds its default: 15 seconds, [DefaultMetricConverter],
    [DefaultKeyNormalizer]. *)
Theorem NewPrometheusProvider_fails_closed {R : Type}
    (r : Metrics.Registry) (namespace subsystem : string) (promRegistry : R)
    (setters : list (optSetter R)) :
  let defaults :=
    mkPrometheusConfig namespace r subsystem promRegistry (15 * Second) ∅
      DefaultMetricConverter DefaultKeyNormalizer in
  match NewPrometheusProvider r namespace subsystem promRegistry setters with
  | (Some c, None) =>
      applied defaults setters c /\
      (Forall (keeps FlushInterval) setters ->
       FlushInterval c = 15000000000) /\
      (Forall (keeps converter) setters ->
       converter c = DefaultMetricConverter) /\
      (Forall (keeps keyNormalizer) setters ->
       keyNormalizer c = DefaultKeyNormalizer)
  | (None, Some e) =>
      exists pre s post c1 c2,
        setters = pre ++ s :: post /\
        applied defaults pre c1 /\
        s c1 = (c2, Some e)
  | (Some _, Some _) | (None, None) => False
  end.
Proof.
  intros defaults. unfold NewPrometheusProvider.
  pose proof (applySetters_spec setters defaults) as Hspec.
  fold defaults.
  destruct (applySetters setters defaults) as [[c|] [e|]]; try done.
  split; [done|].
  repeat split; intros Hk; by rewrite (applied_keeps _ _ _ _ Hspec Hk).
Qed.

(** A setter that fails after one that succeeded: no configuration, the
    error of the failing setter, and the setter behind it is not run. *)
Example NewPrometheusProvider_failing_setter :
  NewPrometheusProvider (R := Prometheus.Registry) [] "test" "subsys" []
    [FlushRate Second; Sample.failing; fun c => (c, Some "not reached")]
  = (None, Some "invalid interval").
Proof. reflexivity. Qed.

Lemma NewPrometheusProvider_fails_closed_witness :
  match
    NewPrometheusProvider (R := Prometheus.Registry) [] "test" "subsys" []
      [KeyNormalizer Sample.lowerCase]
  with
  | (Some c, None) =>
      FlushInterval c = 15000000000 /\
      converter c = DefaultMetricConverter /\
      keyNormalizer c = Sample.lowerCase
  | _ => False
  end.
Proof.
  pose proof (NewPrometheusProvider_fails_closed (R := Prometheus.Registry)
                [] "test" "subsys" [] [KeyNormalizer Sample.lowerCase]) as H.
  cbv zeta in H.
  destruct (NewPrometheusProvider _ _ _ _ _) as [[c|] [e|]] eqn:E; try done.
  destruct H as (_ & Hf & Hc & _).
  injection E as <-.
  split; [|split]; [apply Hf | apply Hc | reflexivity];
    by repeat constructor.
Defined.

(** C10.  The setters [Converter], [KeyNormalizer] and [FlushRate] return
    [nil] for every argument; [FlushRate] stores any duration, zero and
    negative ones included, as it is; [NewPrometheusProvider] with setters
    of these three kinds only returns a configuration and no error. *)
Theorem shipped_setters_never_fail {R : Type}
    (r : Metrics.Registry) (namespace subsystem : string) (promRegistry : R)
    (setters : list (optSetter R)) :
  Forall shipped setters ->
  (forall converter (c : PrometheusConfig R),
     (Converter converter c).2 = nil_error) /\
  (forall normalizer (c : PrometheusConfig R),
     (KeyNormalizer normalizer c).2 = nil_error) /\
  (forall duration (c : PrometheusConfig R),
     (FlushRate duration c).2 = nil_error /\
     FlushInterval (FlushRate duration c).1 = duration) /\
  exists c,
    NewPrometheusProvider r namespace subsystem promRegistry setters
    = (Some c, nil_error).
Proof.
  intros Hall. repeat split. by apply applySetters_shipped.
Qed.

Lemma shipped_setters_never_fail_witness :
  FlushInterval (FlushRate (R := Prometheus.Registry) (-5)
                   (Sample.provider [] [])).1 = -5 /\
  exists c,
    NewPrometheusProvider (R := Prometheus.Registry) [] "test" "subsys" []
      [FlushRate 0; Converter (fun _ _ => (Float64.of_int64 12345, nil_error));
       KeyNormalizer Sample.lowerCase; FlushRate (-5)]
    = (Some c, nil_error).
Proof.
  assert (Hall : Forall (shipped (R := Prometheus.Registry))
            [FlushRate 0;
             Converter (fun _ _ => (Float64.of_int64 12345, nil_error));
             KeyNormalizer Sample.lowerCase; FlushRate (-5)]).
  { constructor; [right; right; by eexists|].
    constructor; [left; by eexists|].
    constructor; [right; left; by eexists|].
    constructor; [right; right; by eexists|]. constructor. }
  destruct (shipped_setters_never_fail [] "test" "subsys" [] _ Hall)
    as (_ & _ & Hflush & Hnew).
  split; [apply Hflush | exact Hnew].
Defined.

(** ** Runs of passes *)

Lemma bool_decide_ext_one (P Q : Prop) `{!Decision P, !Decision Q} :
  (P <-> Q) ->
  (if bool_decide P then 1%nat else 0%nat)
  = (if bool_decide Q then 1%nat else 0%nat).
Proof. intros HPQ. by rewrite (bool_decide_ext P Q). Qed.

Section RunFacts.

Context {R : Type} `{!Prometheus.Registerer R}.

Implicit Types (w : World R) (r : Metrics.Registry) (n name : string).

Local Abbreviation callback :=
  (fun (name : string) (i : Metric) =>
     converter ← get converter;
     let '(value, err) := converter name i in
     match err with
     | None => gaugeFromNameAndValue name value
     | Some _ => mret tt
     end).

Local Abbreviation one b := (if b then 1%nat else 0%nat).

Lemma count_app p (cs1 cs2 : list Prometheus.Call) :
  count p (cs1 ++ cs2) = (count p cs1 + count p cs2)%nat.
Proof. induction cs1 as [|c cs1 IH]; cbn; [done | rewrite IH; lia]. Qed.

(** One upsert, counted by name. *)
Lemma gaugeFromNameAndValue_counts w name val :
  cacheByName w ->
  match gaugeFromNameAndValue name val w with
  | Ok _ w' =>
      sameSettings w w' /\
      cacheByName w' /\
      dom (gauges (conf w'))
      = {[compositeKey (conf w) name]} ∪ dom (gauges (conf w)) /\
      exists new,
        calls w' = calls w ++ new /\
        forall n,
          count (sets n) new = one (bool_decide (n = name)) /\
          count (registers n) new
          = one (bool_decide
                   (n = name /\
                    compositeKey (conf w) name ∉ dom (gauges (conf w))))
  | Panic w' => refused w'
  end.
Proof.
  intros Hcache.
  destruct (gauges (conf w) !! compositeKey (conf w) name) as [g|] eqn:Hg.
  - rewrite (gaugeFromNameAndValue_hit _ _ _ g) by done.
    assert (Hdom : compositeKey (conf w) name ∈ dom (gauges (conf w)))
      by (apply elem_of_dom; eauto).
    assert (Hname : Prometheus.Help (Prometheus.desc g) = name).
    { apply Hcache in Hg. by apply (compositeKey_inj (conf w)) in Hg. }
    split; [by repeat split|]. split; [done|]. cbn [conf calls].
    split; [set_solver|].
    exists [Prometheus.CallSet g val]. split; [done|].
    intros n. cbn. rewrite Hname, Nat.add_0_r. split.
    + apply bool_decide_ext_one. naive_solver.
    + rewrite bool_decide_eq_false_2; [done | naive_solver].
  - rewrite gaugeFromNameAndValue_miss by done.
    destruct (Prometheus.MustRegister _ _) eqn:Hreg.
    + assert (Hdom : compositeKey (conf w) name ∉ dom (gauges (conf w)))
        by (by apply not_elem_of_dom).
      split; [by repeat split|]. cbn [conf calls gauges].
      split.
      { intros k g'. unfold compositeKey. cbn [conf gauges Namespace Subsystem].
        destruct (decide (k = compositeKey (conf w) name)) as [->|Hk].
        - rewrite lookup_insert_eq. by intros [= <-].
        - rewrite lookup_insert_ne by done. apply Hcache. }
      split; [by rewrite dom_insert_L|].
      eexists [_; _]. split; [by rewrite <- app_assoc|].
      intros n. cbn. rewrite !Nat.add_0_r. split.
      * apply bool_decide_ext_one. naive_solver.
      * apply bool_decide_ext_one. naive_solver.
    + eexists. cbn [conf calls promRegistry]. by rewrite last_snoc.
Qed.

Lemma Each_nil (f : string -> Metric -> M R unit) w : Each [] f w = Ok tt w.
Proof. done. Qed.

(** One pass over entries with distinct names that all convert, counted by
    name: every name is set once, and registered once when its key is not
    cached yet. *)
Lemma Each_counts r w :
  cacheByName w ->
  NoDup r.*1 ->
  Forall (fun e => (converter (conf w) e.1 e.2).2 = nil_error) r ->
  match Each r callback w with
  | Ok _ w' =>
      sameSettings w w' /\
      cacheByName w' /\
      dom (gauges (conf w'))
      = list_to_set (compositeKey (conf w) <$> r.*1) ∪ dom (gauges (conf w)) /\
      exists new,
        calls w' = calls w ++ new /\
        forall n,
          count (sets n) new = one (bool_decide (n ∈ r.*1)) /\
          count (registers n) new
          = one (bool_decide
                   (n ∈ r.*1 /\
                    compositeKey (conf w) n ∉ dom (gauges (conf w))))
  | Panic w' => refused w'
  end.
Proof.
  revert w. induction r as [|[name i] r IH]; intros w Hcache Hnodup Hconv.
  { rewrite Each_nil. split; [apply sameSettings_refl|]. split; [done|].
    split; [set_solver|]. exists []. split; [by rewrite app_nil_r|].
    intros n. cbn. rewrite !bool_decide_eq_false_2; [done|..]; set_solver. }
  cbn [fmap list_fmap fst] in Hnodup.
  apply NoDup_cons in Hnodup as [Hfresh Hnodup].
  apply Forall_cons in Hconv as [Hi Hconv]. cbn [fst snd] in Hi.
  rewrite Each_cons, callback_unfold, Hi.
  pose proof (gaugeFromNameAndValue_counts w name
                (converter (conf w) name i).1 Hcache) as Hstep.
  destruct (gaugeFromNameAndValue _ _ w) as [[] w1|w1]; [|done].
  destruct Hstep as (Hs1 & Hcache1 & Hdom1 & new1 & Hcalls1 & Hcount1).
  assert (Hconv1 : converter (conf w1) = converter (conf w)) by apply Hs1.
  specialize (IH w1 Hcache1 Hnodup). rewrite Hconv1 in IH.
  specialize (IH Hconv).
  destruct (Each r _ w1) as [[] w'|w']; [|done].
  destruct IH as (Hs & Hcache' & Hdom & new & Hcalls & Hcount).
  rewrite (sameSettings_key w w1 Hs1) in Hdom, Hcount.
  split; [by eapply sameSettings_trans|]. split; [done|].
  split; [rewrite Hdom, Hdom1; cbn; set_solver|].
  exists (new1 ++ new). split; [by rewrite Hcalls, Hcalls1, app_assoc|].
  intros n. rewrite !count_app.
  destruct (Hcount1 n) as [-> ->], (Hcount n) as [-> ->].
  cbn [fmap list_fmap fst]. rewrite Hdom1.
  destruct (decide (n = name)) as [->|Hn].
  - rewrite (bool_decide_eq_true_2 (name = name)) by done.
    rewrite (bool_decide_eq_false_2 (name ∈ r.*1)) by done.
    rewrite (bool_decide_eq_true_2 (name ∈ name :: r.*1)) by set_solver.
    split; [done|].
    rewrite (bool_decide_eq_false_2 (name ∈ r.*1 /\ _)) by tauto.
    rewrite Nat.add_0_r. apply bool_decide_ext_one. set_solver.
  - rewrite (bool_decide_eq_false_2 (n = name)) by done.
    rewrite (bool_decide_eq_false_2 (n = name /\ _)) by tauto.
    assert (Hkey : compositeKey (conf w) n <> compositeKey (conf w) name)
      by (intros Hk; by apply (compositeKey_inj (conf w)) in Hk).
    split; apply bool_decide_ext_one; set_solver.
Qed.

Lemma passes_cons r (rs : list Metrics.Registry) w :
  passes (r :: rs) w
  = match UpdatePrometheusMetricsOnce (final (registry_update r w)) with
    | Ok _ w1 => passes rs w1
    | Panic w1 => Panic w1
    end.
Proof.
  unfold passes at 1; fold (passes (R := R)). unfold mbind, M_bind.
  cbn [registry_update final].
  by destruct (UpdatePrometheusMetricsOnce _).
Qed.

Lemma passes_app (rs1 rs2 : list Metrics.Registry) w :
  passes (rs1 ++ rs2) w
  = match passes rs1 w with
    | Ok _ w1 => passes rs2 w1
    | Panic w1 => Panic w1
    end.
Proof.
  revert w. induction rs1 as [|r rs1 IH]; intros w; [done|].
  rewrite <- app_comm_cons, !passes_cons.
  destruct (UpdatePrometheusMetricsOnce _) as [e w1|w1]; [apply IH | done].
Qed.

(** A run of passes over registries with the same distinct names, all of
    whose metrics convert, counted by name. *)
Lemma passes_counts (names : list string) (rs : list Metrics.Registry) w :
  cacheByName w ->
  NoDup names ->
  Forall (fun r => r.*1 ≡ₚ names) rs ->
  Forall (Forall (fun e => (converter (conf w) e.1 e.2).2 = nil_error)) rs ->
  match passes rs w with
  | Ok _ w' =>
      sameSettings w w' /\
      cacheByName w' /\
      dom (gauges (conf w'))
      = (if rs is [] then ∅ else list_to_set (compositeKey (conf w) <$> names))
          ∪ dom (gauges (conf w)) /\
      exists new,
        calls w' = calls w ++ new /\
        forall n,
          n ∈ names ->
          count (sets n) new = length rs /\
          count (registers n) new
          = one (bool_decide
                   (rs <> [] /\
                    compositeKey (conf w) n ∉ dom (gauges (conf w))))
  | Panic w' => refused w'
  end.
Proof.
  intros Hcache Hnodup. revert w Hcache.
  induction rs as [|r rs IH]; intros w Hcache Hperm Hconv.
  { split; [apply sameSettings_refl|]. split; [done|].
    split; [set_solver|]. exists []. split; [by rewrite app_nil_r|].
    intros n _. cbn [count length].
    by rewrite bool_decide_eq_false_2 by tauto. }
  apply Forall_cons in Hperm as [Hr Hperm].
  apply Forall_cons in Hconv as [Hcr Hconv].
  rewrite passes_cons, UpdatePrometheusMetricsOnce_unfold.
  set (w0 := final (registry_update r w)).
  assert (Hs0 : sameSettings w w0) by (by repeat split).
  assert (Hcache0 : cacheByName w0) by exact Hcache.
  assert (Hnd : NoDup r.*1) by (by rewrite Hr).
  pose proof (Each_counts r w0 Hcache0 Hnd Hcr) as Hpass.
  change (registry (conf w0)) with r.
  destruct (Each r _ w0) as [[] w1|w1]; [|done].
  destruct Hpass as (Hs1 & Hcache1 & Hdom1 & new1 & Hcalls1 & Hcount1).
  change (compositeKey (conf w0)) with (compositeKey (conf w)) in *.
  change (gauges (conf w0)) with (gauges (conf w)) in *.
  change (calls w0) with (calls w) in *.
  assert (Hkeys : list_to_set (C := gset string)
                    (compositeKey (conf w) <$> r.*1)
                  = list_to_set (compositeKey (conf w) <$> names))
    by (by rewrite Hr).
  rewrite Hkeys in Hdom1.
  assert (Hs01 : sameSettings w w1) by (by eapply sameSettings_trans).
  assert (Hconv1 : converter (conf w1) = converter (conf w)) by apply Hs01.
  specialize (IH w1 Hcache1 Hperm). rewrite Hconv1 in IH.
  specialize (IH Hconv).
  destruct (passes rs w1) as [[] w'|w']; [|done].
  destruct IH as (Hs & Hcache' & Hdom & new & Hcalls & Hcount).
  rewrite (sameSettings_key w w1 Hs01) in Hdom, Hcount.
  split; [by eapply sameSettings_trans|]. split; [done|].
  split; [rewrite Hdom, Hdom1; destruct rs; set_solver|].
  exists (new1 ++ new). split; [by rewrite Hcalls, Hcalls1, app_assoc|].
  intros n Hn. rewrite !count_app.
  destruct (Hcount1 n) as [-> ->], (Hcount n Hn) as [-> ->].
  assert (Hin : n ∈ r.*1) by (by rewrite Hr).
  assert (Hcached : compositeKey (conf w) n ∈ dom (gauges (conf w1))).
  { rewrite Hdom1. apply elem_of_union_l, elem_of_list_to_set.
    by apply list_elem_of_fmap_2. }
  rewrite (bool_decide_eq_true_2 (n ∈ r.*1)) by done.
  rewrite (bool_decide_eq_false_2 (rs <> [] /\ _)) by (by intros [_ ?]).
  cbn [length]. split; [lia|].
  rewrite Nat.add_0_r. apply bool_decide_ext_one.
  split; intros [_ ?]; by split.
Qed.

End RunFacts.

(** C2, as amended.  Take a run of N >= 1 passes from an empty gauge cache
    over registries that hold the same distinct metric names, all of whose
    metrics convert.  Unless [MustRegister] refuses a gauge and panics, after
    each pass k = 1, ..., N every name has had exactly one registration (so
    it was registered in the first pass) and exactly k value-set calls, and
    the cache holds exactly the composite keys of the names, one entry
    each. *)
Theorem registration_once_per_name {R : Type} `{!Prometheus.Registerer R}
    (w : World R) (names : list string) (rs : list Metrics.Registry)
    (k : nat) :
  gauges (conf w) = ∅ ->
  NoDup names ->
  Forall (fun r => r.*1 ≡ₚ names) rs ->
  Forall (Forall (fun e => (converter (conf w) e.1 e.2).2 = nil_error)) rs ->
  (1 <= k <= length rs)%nat ->
  match passes (take k rs) w with
  | Ok _ w' =>
      (exists new,
         calls w' = calls w ++ new /\
         forall name,
           name ∈ names ->
           count (registers name) new = 1%nat /\
           count (sets name) new = k) /\
      dom (gauges (conf w')) = list_to_set (compositeKey (conf w) <$> names) /\
      size (gauges (conf w')) = length names
  | Panic w' => refused w'
  end.
Proof.
  intros Hempty Hnodup Hperm Hconv Hk.
  assert (Hcache : cacheByName w).
  { intros key g. by rewrite Hempty, lookup_empty. }
  pose proof (passes_counts names (take k rs) w Hcache Hnodup
                (Forall_take _ k _ Hperm) (Forall_take _ k _ Hconv)) as Hrun.
  destruct (passes (take k rs) w) as [[] w'|w']; [|done].
  destruct Hrun as (_ & _ & Hdom & new & Hcalls & Hcount).
  assert (Hne : take k rs <> []).
  { intros Hnil. apply (f_equal length) in Hnil.
    rewrite length_take in Hnil. cbn in Hnil. lia. }
  rewrite Hempty, dom_empty_L, (right_id_L ∅ (∪)) in Hdom.
  destruct (take k rs) as [|r0 rs0] eqn:Htake; [done|].
  split; [|split; [done|]].
  - exists new. split; [done|]. intros name Hname.
    destruct (Hcount name Hname) as [Hsets Hregs].
    rewrite Hregs, Hsets, <- Htake, length_take.
    rewrite bool_decide_eq_true_2; [split; [done | lia]|].
    split; [by rewrite Htake|]. rewrite Hempty, dom_empty_L. set_solver.
  - rewrite <- size_dom, Hdom, size_list_to_set, length_fmap; [done|].
    apply NoDup_fmap; [apply compositeKey_inj | done].
Qed.

Lemma registration_once_per_name_witness :
  let w := start (Sample.provider (Sample.two 2 0) []) in
  match passes (take 3 Sample.run) w with
  | Ok _ w' =>
      (exists new,
         calls w' = calls w ++ new /\
         forall name,
           name ∈ Sample.names ->
           count (registers name) new = 1%nat /\
           count (sets name) new = 3%nat) /\
      dom (gauges (conf w'))
      = list_to_set (compositeKey (conf w) <$> Sample.names) /\
      size (gauges (conf w')) = length Sample.names
  | Panic w' => refused w'
  end.
Proof.
  apply (registration_once_per_name
           (start (Sample.provider (Sample.two 2 0) []))
           Sample.names Sample.run 3).
  - reflexivity.
  - apply (bool_decide_unpack _). vm_compute. exact I.
  - repeat constructor.
  - repeat constructor.
  - cbn. lia.
Defined.

(** C2, as stated, fails: the two names of [Sample.colliding] are distinct,
    both metrics convert and the cache starts empty, yet the first pass
    panics in the second registration: the second name gets no value-set
    call and no cache entry. *)
Lemma registration_panics_on_collision :
  let w := start (Sample.provider Sample.colliding []) in
  let out := passes [Sample.colliding] w in
  gauges (conf w) = ∅ /\
  Sample.colliding.*1 = ["a.b"; "a_b"] /\
  Forall (fun e => (converter (conf w) e.1 e.2).2 = nil_error)
    Sample.colliding /\
  panicked out = true /\
  count (sets "a_b") (calls (final out)) = 0%nat /\
  gauges (conf (final out)) !! "test_subsys_a_b" = None.
Proof.
  cbv zeta. split; [reflexivity|]. split; [reflexivity|].
  split; [by repeat constructor|].
  vm_compute. done.
Qed.

(** The same run counted out: one registration and three sets per name. *)
Example passes_sample_run :
  let out := passes Sample.run (start (Sample.provider (Sample.two 2 0) [])) in
  panicked out = false /\
  count (registers "requests") (calls (final out)) = 1%nat /\
  count (sets "requests") (calls (final out)) = 3%nat /\
  count (registers "errors") (calls (final out)) = 1%nat /\
  count (sets "errors") (calls (final out)) = 3%nat /\
  cells (final out) = [Float64.of_int64 20; Float64.of_int64 3].
Proof. vm_compute. done. Qed.

(** * Further properties of the code *)

(** ** The normalizers *)

Lemma map_length (f : ascii -> ascii) (s : string) :
  String.length (GoStrings.map f s) = String.length s.
Proof. induction s as [|c s IH]; cbn; [done | by rewrite IH]. Qed.

Lemma map_bytes (f : ascii -> ascii) (s : string) :
  list_ascii_of_string (GoStrings.map f s) = f <$> list_ascii_of_string s.
Proof. induction s as [|c s IH]; cbn; [done | by rewrite IH]. Qed.

Lemma map_app (f : ascii -> ascii) (s1 s2 : string) :
  GoStrings.map f (s1 +:+ s2) = GoStrings.map f s1 +:+ GoStrings.map f s2.
Proof.
  induction s1 as [|c s1 IH]; [done|].
  change (String c s1 +:+ s2) with (String c (s1 +:+ s2)).
  cbn [GoStrings.map]. rewrite IH. done.
Qed.

Lemma normalizeByte_not_listed (c : ascii) :
  normalizeByte c ∉ [" "; "."; "-"; "="]%char.
Proof.
  unfold normalizeByte. case_bool_decide as Hc; [|done].
  rewrite !elem_of_cons, elem_of_nil. intros [?|[?|[?|[?|[]]]]]; discriminate.
Qed.

Lemma normalizeByte_fixed (c : ascii) :
  normalizeByte c = c <-> c ∉ [" "; "."; "-"; "="]%char.
Proof.
  split.
  - intros <-. apply normalizeByte_not_listed.
  - intros Hc. unfold normalizeByte. by rewrite bool_decide_eq_false_2.
Qed.

(** X1.  [DefaultKeyNormalizer] keeps the length of its argument, and its
    result holds none of the characters space, [.], [-], [=]. *)
Theorem DefaultKeyNormalizer_length_and_alphabet (key : string) :
  String.length (DefaultKeyNormalizer key) = String.length key /\
  forall c : ascii,
    c ∈ list_ascii_of_string (DefaultKeyNormalizer key) ->
    c ∉ [" "; "."; "-"; "="]%char.
Proof.
  rewrite DefaultKeyNormalizer_map. split; [apply map_length|].
  intros c. rewrite map_bytes. intros (c0 & -> & _)%list_elem_of_fmap.
  apply normalizeByte_not_listed.
Qed.

(** X2.  The strings [DefaultKeyNormalizer] leaves as they are, are exactly
    the strings without any of the characters space, [.], [-], [=]. *)
Theorem DefaultKeyNormalizer_fixed_points (key : string) :
  DefaultKeyNormalizer key = key <->
  forall c : ascii,
    c ∈ list_ascii_of_string key -> c ∉ [" "; "."; "-"; "="]%char.
Proof.
  rewrite DefaultKeyNormalizer_map.
  induction key as [|c key IH]; cbn [GoStrings.map list_ascii_of_string].
  { split; [|done]. intros _ c Hc. by apply elem_of_nil in Hc. }
  split.
  - intros [= Hc Hkey] c' [->|Hc']%elem_of_cons.
    + by apply normalizeByte_fixed.
    + by apply IH.
  - intros Hall. f_equal.
    + apply normalizeByte_fixed, Hall. by left.
    + apply IH. intros c' Hc'. apply Hall. by right.
Qed.

(** X3.  [DefaultKeyNormalizer] works character by character: it
    distributes over concatenation.  Hence, under the default normalizer,
    joining the normalized namespace, subsystem and name with [_] gives the
    normalized composite key of the gauge cache. *)
Theorem DefaultKeyNormalizer_distributes
    {R : Type} (c : PrometheusConfig R) (s1 s2 name : string) :
  DefaultKeyNormalizer (s1 +:+ s2)
  = DefaultKeyNormalizer s1 +:+ DefaultKeyNormalizer s2 /\
  DefaultKeyNormalizer (Namespace c) +:+ "_" +:+
    DefaultKeyNormalizer (Subsystem c) +:+ "_" +:+ DefaultKeyNormalizer name
  = DefaultKeyNormalizer (compositeKey c name).
Proof.
  split; [by rewrite !DefaultKeyNormalizer_map, map_app|].
  unfold compositeKey. by rewrite !DefaultKeyNormalizer_map, !map_app.
Qed.

(** ** The value converter *)

(** X4.  [DefaultMetricConverter] fails exactly on values of an unsupported
    type and on histograms without samples; when it fails it returns 0.0
    with the message [metric '<name>' has unknown type: <type>]. *)
Theorem DefaultMetricConverter_fails_iff (name : string) (i : Metric) :
  ((DefaultMetricConverter name i).2 <> nil_error <->
   view i = Other \/ view i = Histogram []) /\
  ((DefaultMetricConverter name i).2 <> nil_error ->
   DefaultMetricConverter name i
   = (Float64.zero,
      Some ("metric '" +:+ name +:+ "' has unknown type: " +:+ TypeOf i))).
Proof.
  unfold DefaultMetricConverter. destruct i as [ty v]; cbn [view TypeOf].
  unfold GoFmt.Errorf. rewrite Sprintf_unknown_type.
  destruct v as [| | |[|x samples]| | |]; cbn [snd length Nat.ltb Nat.leb].
  all: first
    [ (* the conversion succeeds *)
      split; [split; [intros H; by destruct H | intros [?|?]; discriminate]
             | intros H; by destruct H]
    | (* the conversion fails *)
      split; [split; [intros _; auto | intros _; discriminate] | done] ].
Qed.

Lemma DefaultMetricConverter_fails_iff_witness :
  DefaultMetricConverter "queue" Sample.unsupported
  = (Float64.zero, Some "metric 'queue' has unknown type: string").
Proof.
  apply (DefaultMetricConverter_fails_iff "queue" Sample.unsupported).
  discriminate.
Defined.

(** ** The configuration builder, continued *)

Section BuilderOrder.

Context {R : Type}.

Implicit Types (c : PrometheusConfig R) (setters : list (optSetter R)).

Lemma applied_app_inv c0 pre (s : optSetter R) post c :
  applied c0 (pre ++ s :: post) c ->
  exists c1 c2, applied c0 pre c1 /\ s c1 = (c2, nil_error) /\ applied c2 post c.
Proof.
  revert c0. induction pre as [|s0 pre IH]; intros c0 Happ.
  - inversion Happ as [|? ? c2 ? ? Hs Hpost]; subst.
    exists c0, c2. split; [constructor | done].
  - rewrite <- app_comm_cons in Happ.
    inversion Happ as [|? ? c' ? ? Hs0 Hrest]; subst.
    destruct (IH c' Hrest) as (c1 & c2 & Hpre & Hs & Hpost).
    exists c1, c2. split; [by econstructor | done].
Qed.

Lemma NewPrometheusProvider_applied r namespace subsystem (pr : R) setters c :
  NewPrometheusProvider r namespace subsystem pr setters = (Some c, nil_error) ->
  applied
    (mkPrometheusConfig namespace r subsystem pr (15 * Second) ∅
       DefaultMetricConverter DefaultKeyNormalizer)
    setters c.
Proof.
  unfold NewPrometheusProvider. intros Hnew.
  pose proof (applySetters_spec setters
                (mkPrometheusConfig namespace r subsystem pr (15 * Second) ∅
                   DefaultMetricConverter DefaultKeyNormalizer)) as Hspec.
  by rewrite Hnew in Hspec.
Qed.

Lemma shipped_keeps_identity (s : optSetter R) :
  shipped s ->
  keeps Namespace s /\ keeps Subsystem s /\ keeps registry s /\
  keeps promRegistry s /\ keeps gauges s.
Proof. by intros [[? ->]|[[? ->]|[? ->]]]. Qed.

End BuilderOrder.

(** X5.  When several setters set the same option, the last one wins: the
    configuration [NewPrometheusProvider] returns holds the duration of the
    last [FlushRate], the converter of the last [Converter] and the
    normalizer of the last [KeyNormalizer] (last: no setter behind it
    touches that option). *)
Theorem NewPrometheusProvider_last_setter_wins {R : Type}
    (r : Metrics.Registry) (namespace subsystem : string) (promRegistry : R)
    (setters : list (optSetter R)) (c : PrometheusConfig R) :
  NewPrometheusProvider r namespace subsystem promRegistry setters
  = (Some c, nil_error) ->
  (forall pre duration post,
     setters = pre ++ FlushRate duration :: post ->
     Forall (keeps FlushInterval) post ->
     FlushInterval c = duration) /\
  (forall pre f post,
     setters = pre ++ Converter f :: post ->
     Forall (keeps converter) post ->
     converter c = f) /\
  (forall pre normalizer post,
     setters = pre ++ KeyNormalizer normalizer :: post ->
     Forall (keeps keyNormalizer) post ->
     keyNormalizer c = normalizer).
Proof.
  intros Hnew. apply NewPrometheusProvider_applied in Hnew.
  repeat split; intros pre x post -> Hpost;
    apply applied_app_inv in Hnew as (c1 & c2 & _ & Hs & Hrest);
    rewrite (applied_keeps _ _ _ _ Hrest Hpost);
    by injection Hs as <-.
Qed.

Lemma NewPrometheusProvider_last_setter_wins_witness :
  FlushInterval
    (Sample.provider []
       [FlushRate Second; FlushRate (5 * Second);
        KeyNormalizer Sample.lowerCase])
  = 5 * Second.
Proof.
  refine (proj1 (NewPrometheusProvider_last_setter_wins
                   (R := Prometheus.Registry) [] "test" "subsys" []
                   [FlushRate Second; FlushRate (5 * Second);
                    KeyNormalizer Sample.lowerCase]
                   _ eq_refl)
            [FlushRate Second] (5 * Second) [KeyNormalizer Sample.lowerCase]
            eq_refl _).
  by repeat constructor.
Defined.

(** X6.  The setters [Converter], [KeyNormalizer] and [FlushRate] leave the
    rest of the configuration alone: the provider built with them has the
    namespace, the subsystem and the two registries it was given, and an
    empty gauge cache. *)
Theorem NewPrometheusProvider_shipped_identity {R : Type}
    (r : Metrics.Registry) (namespace subsystem : string) (pr : R)
    (setters : list (optSetter R)) (c : PrometheusConfig R) :
  Forall shipped setters ->
  NewPrometheusProvider r namespace subsystem pr setters
  = (Some c, nil_error) ->
  Namespace c = namespace /\
  Subsystem c = subsystem /\
  registry c = r /\
  promRegistry c = pr /\
  gauges c = ∅.
Proof.
  intros Hall Hnew. apply NewPrometheusProvider_applied in Hnew.
  repeat split.
  - rewrite (applied_keeps Namespace _ _ _ Hnew); [done|].
    eapply Forall_impl; [done|]. intros s Hs. by apply shipped_keeps_identity.
  - rewrite (applied_keeps Subsystem _ _ _ Hnew); [done|].
    eapply Forall_impl; [done|]. intros s Hs. by apply shipped_keeps_identity.
  - rewrite (applied_keeps registry _ _ _ Hnew); [done|].
    eapply Forall_impl; [done|]. intros s Hs. by apply shipped_keeps_identity.
  - rewrite (applied_keeps (fun c0 => promRegistry c0) _ _ _ Hnew); [done|].
    eapply Forall_impl; [done|]. intros s Hs. by apply shipped_keeps_identity.
  - rewrite (applied_keeps gauges _ _ _ Hnew); [done|].
    eapply Forall_impl; [done|]. intros s Hs. by apply shipped_keeps_identity.
Qed.

Lemma NewPrometheusProvider_shipped_identity_witness :
  let c :=
    Sample.provider (Sample.two 1 2)
      [FlushRate 0; KeyNormalizer Sample.lowerCase] in
  Namespace c = "test" /\
  Subsystem c = "subsys" /\
  registry c = Sample.two 1 2 /\
  promRegistry c = [] /\
  gauges c = ∅.
Proof.
  refine (NewPrometheusProvider_shipped_identity
            (R := Prometheus.Registry) (Sample.two 1 2) "test" "subsys" []
            [FlushRate 0; KeyNormalizer Sample.lowerCase] _ _ eq_refl).
  constructor; [right; right; by eexists|].
  constructor; [right; left; by eexists|]. constructor.
Defined.

(** ** The gauge cache and the value cells *)

Section CellFacts.

Context {R : Type} `{!Prometheus.Registerer R}.

Implicit Types (w : World R) (r : Metrics.Registry) (name : string)
  (val : float64).

Local Abbreviation callback :=
  (fun (name : string) (i : Metric) =>
     converter ← get converter;
     let '(value, err) := converter name i in
     match err with
     | None => gaugeFromNameAndValue name value
     | Some _ => mret tt
     end).

Lemma extends_refl w : extends w w.
Proof.
  split; [apply sameSettings_refl|]. repeat split; [done..|].
  exists []. by rewrite app_nil_r.
Qed.

Lemma extends_trans w1 w2 w3 : extends w1 w2 -> extends w2 w3 -> extends w1 w3.
Proof.
  intros (Hs1 & Hf1 & Hg1 & Hl1 & n1 & Hc1) (Hs2 & Hf2 & Hg2 & Hl2 & n2 & Hc2).
  split; [by eapply sameSettings_trans|].
  split; [congruence|]. split; [by etrans|]. split; [lia|].
  exists (n1 ++ n2). by rewrite Hc2, Hc1, app_assoc.
Qed.

(** One upsert, whichever way it goes: what it leaves in place. *)
Lemma gaugeFromNameAndValue_extends w name val :
  extends w (final (gaugeFromNameAndValue name val w)) /\
  registry (conf (final (gaugeFromNameAndValue name val w)))
  = registry (conf w).
Proof.
  destruct (gauges (conf w) !! compositeKey (conf w) name) as [g|] eqn:Hg.
  - rewrite (gaugeFromNameAndValue_hit _ _ _ g) by done. cbn [final].
    split; [|done]. split; [by repeat split|]. cbn [conf cells calls].
    split; [done|]. split; [done|]. split; [by rewrite length_insert|].
    by eexists.
  - rewrite gaugeFromNameAndValue_miss by done.
    destruct (Prometheus.MustRegister _ _); cbn [final].
    + split; [|done]. split; [by repeat split|].
      cbn [conf cells calls gauges FlushInterval].
      split; [done|]. split; [by apply insert_subseteq|].
      split; [rewrite length_insert, length_app; lia|].
      eexists [_; _]. by rewrite <- app_assoc.
    + split; [|done]. split; [by repeat split|]. cbn [conf cells calls].
      split; [done|]. split; [done|].
      split; [rewrite length_app; lia|]. by eexists.
Qed.

(** One upsert and the value cells: the invariant is kept; when the upsert
    returns, the cell of the gauge cached for the name holds the value, and
    the cells of the gauges cached under other keys are as before. *)
Lemma gaugeFromNameAndValue_cells w name val :
  wellFormed w ->
  wellFormed (final (gaugeFromNameAndValue name val w)) /\
  forall w',
    gaugeFromNameAndValue name val w = Ok tt w' ->
    (exists g,
       gauges (conf w') !! compositeKey (conf w) name = Some g /\
       cells w' !! Prometheus.addr g = Some val) /\
    (forall k g,
       gauges (conf w) !! k = Some g ->
       k <> compositeKey (conf w) name ->
       cells w' !! Prometheus.addr g = cells w !! Prometheus.addr g).
Proof.
  intros (Hname & Halloc & Hdist).
  destruct (gauges (conf w) !! compositeKey (conf w) name) as [g|] eqn:Hg.
  - rewrite (gaugeFromNameAndValue_hit _ _ _ g) by done. cbn [final]. split.
    + split; [done|]. split.
      * intros k g' Hk. cbn [conf cells] in *. rewrite length_insert.
        by eapply Halloc.
      * done.
    + intros w' [= <-]. cbn [conf cells]. split.
      * exists g. split; [done|].
        apply list_lookup_insert_eq. by eapply Halloc.
      * intros k g' Hk Hne. apply list_lookup_insert_ne.
        intros Heq. apply Hne. symmetry. by eapply Hdist.
  - rewrite gaugeFromNameAndValue_miss by done.
    destruct (Prometheus.MustRegister _ _) eqn:Hreg; cbn [final].
    + split.
      * split; [|split].
        -- intros k g'. unfold compositeKey.
           cbn [conf gauges Namespace Subsystem].
           destruct (decide (k = compositeKey (conf w) name)) as [->|Hk].
           ++ rewrite lookup_insert_eq. by intros [= <-].
           ++ rewrite lookup_insert_ne by done. apply Hname.
        -- intros k g'. cbn [conf gauges cells].
           rewrite length_insert, length_app. cbn [length].
           destruct (decide (k = compositeKey (conf w) name)) as [->|Hk].
           ++ rewrite lookup_insert_eq. intros [= <-]. cbn. lia.
           ++ rewrite lookup_insert_ne by done. intros Hk'.
              apply Halloc in Hk'. lia.
        -- intros k1 k2 g1 g2. cbn [conf gauges].
           destruct (decide (k1 = compositeKey (conf w) name)) as [->|Hk1],
             (decide (k2 = compositeKey (conf w) name)) as [->|Hk2];
             [done|..].
           ++ rewrite lookup_insert_eq, lookup_insert_ne by done.
              intros [= <-] Hg2%Halloc. cbn. lia.
           ++ rewrite lookup_insert_eq, lookup_insert_ne by done.
              intros Hg1%Halloc [= <-]. cbn. lia.
           ++ rewrite !lookup_insert_ne by done. apply Hdist.
      * intros w' [= <-]. cbn [conf gauges cells]. split.
        -- eexists. split; [by apply lookup_insert_eq|].
           cbn [Prometheus.addr]. apply list_lookup_insert_eq.
           rewrite length_app. cbn. lia.
        -- intros k g' Hk Hne. apply Halloc in Hk as Hlt.
           rewrite list_lookup_insert_ne by lia.
           by apply lookup_app_l.
    + split; [|done]. split; [done|]. split; [|done].
      intros k g' Hk. cbn [conf cells] in *. rewrite length_app.
      apply Halloc in Hk. lia.
Qed.

End CellFacts.

(** ** Passes and the value cells *)

Section PassCellFacts.

Context {R : Type} `{!Prometheus.Registerer R}.

Implicit Types (w : World R) (r : Metrics.Registry) (name : string).

Local Abbreviation callback :=
  (fun (name : string) (i : Metric) =>
     converter ← get converter;
     let '(value, err) := converter name i in
     match err with
     | None => gaugeFromNameAndValue name value
     | Some _ => mret tt
     end).

(** Case analysis on the outcome of the first call of a sequence; the
    panic case is closed by the facts at hand. *)
Ltac destruct_outcome w1 :=
  match goal with
  | |- context [match ?o with Ok _ _ => _ | Panic _ => _ end] =>
      destruct o as [[] w1|w1]; cbn [final] in *; [|done]
  end.

Lemma callback_extends name i w :
  extends w (final (callback name i w)) /\
  registry (conf (final (callback name i w))) = registry (conf w).
Proof.
  cbv beta. rewrite callback_unfold.
  destruct (converter (conf w) name i).2.
  - split; [apply extends_refl | done].
  - apply gaugeFromNameAndValue_extends.
Qed.

Lemma callback_wellFormed name i w :
  wellFormed w -> wellFormed (final (callback name i w)).
Proof.
  intros Hwf. cbv beta. rewrite callback_unfold.
  destruct (converter (conf w) name i).2; [done|].
  by apply gaugeFromNameAndValue_cells.
Qed.

Lemma Each_extends r w :
  extends w (final (Each r callback w)) /\
  registry (conf (final (Each r callback w))) = registry (conf w).
Proof.
  revert w. induction r as [|[name i] r IH]; intros w.
  { split; [apply extends_refl | done]. }
  rewrite Each_cons.
  pose proof (callback_extends name i w) as [Hext Hreg]. cbv beta in *.
  destruct_outcome w1.
  destruct (IH w1) as [Hext' Hreg'].
  split; [by eapply extends_trans | congruence].
Qed.

Lemma Each_wellFormed r w :
  wellFormed w -> wellFormed (final (Each r callback w)).
Proof.
  revert w. induction r as [|[name i] r IH]; intros w Hwf; [done|].
  rewrite Each_cons.
  pose proof (callback_wellFormed name i w Hwf) as Hwf1. cbv beta in *.
  destruct_outcome w1.
  by apply IH.
Qed.

Lemma UpdatePrometheusMetricsOnce_final w :
  final (UpdatePrometheusMetricsOnce w)
  = final (Each (registry (conf w)) callback w).
Proof.
  rewrite UpdatePrometheusMetricsOnce_unfold. by destruct (Each _ _ w).
Qed.

Lemma passes_final_cons r (rs : list Metrics.Registry) w :
  final (passes (r :: rs) w)
  = match UpdatePrometheusMetricsOnce (final (registry_update r w)) with
    | Ok _ w1 => final (passes rs w1)
    | Panic w1 => w1
    end.
Proof.
  rewrite passes_cons. by destruct (UpdatePrometheusMetricsOnce _).
Qed.

Lemma registry_update_extends r w : extends w (final (registry_update r w)).
Proof.
  split; [by repeat split|]. repeat split; [done..|].
  exists []. cbn. by rewrite app_nil_r.
Qed.

Lemma passes_extends (rs : list Metrics.Registry) w :
  extends w (final (passes rs w)).
Proof.
  revert w. induction rs as [|r rs IH]; intros w; [apply extends_refl|].
  rewrite passes_final_cons.
  set (w0 := final (registry_update r w)).
  pose proof (registry_update_extends r w) as H0. fold w0 in H0.
  pose proof (Each_extends (registry (conf w0)) w0) as [H1 _].
  rewrite <- UpdatePrometheusMetricsOnce_final in H1.
  destruct (UpdatePrometheusMetricsOnce w0) as [e w1|w1]; cbn [final] in H1.
  - apply (extends_trans _ w1); [by apply (extends_trans _ w0) | apply IH].
  - by apply (extends_trans _ w0).
Qed.

Lemma passes_wellFormed (rs : list Metrics.Registry) w :
  wellFormed w -> wellFormed (final (passes rs w)).
Proof.
  revert w. induction rs as [|r rs IH]; intros w Hwf; [done|].
  rewrite passes_final_cons.
  set (w0 := final (registry_update r w)).
  assert (Hwf0 : wellFormed w0) by exact Hwf.
  pose proof (Each_wellFormed (registry (conf w0)) w0 Hwf0) as H1.
  rewrite <- UpdatePrometheusMetricsOnce_final in H1.
  destruct (UpdatePrometheusMetricsOnce w0) as [e w1|w1]; cbn [final] in H1;
    [by apply IH | done].
Qed.

(** The value cells after a pass over entries with distinct names. *)
Lemma Each_values r w w' :
  wellFormed w ->
  NoDup r.*1 ->
  Each r callback w = Ok tt w' ->
  (forall name i,
     (name, i) ∈ r ->
     (converter (conf w) name i).2 = nil_error ->
     exists g,
       gauges (conf w') !! compositeKey (conf w) name = Some g /\
       cells w' !! Prometheus.addr g = Some (converter (conf w) name i).1) /\
  (forall k g,
     gauges (conf w) !! k = Some g ->
     (forall name i,
        (name, i) ∈ r ->
        (converter (conf w) name i).2 = nil_error ->
        k <> compositeKey (conf w) name) ->
     cells w' !! Prometheus.addr g = cells w !! Prometheus.addr g).
Proof.
  revert w. induction r as [|[name i] r IH]; intros w Hwf Hnodup Hrun.
  { injection Hrun as <-. split; [|done].
    intros name i Hin. by apply elem_of_nil in Hin. }
  cbn [fmap list_fmap fst] in Hnodup.
  apply NoDup_cons in Hnodup as [Hfresh Hnodup].
  rewrite Each_cons, callback_unfold in Hrun.
  destruct (converter (conf w) name i) as [v [e|]] eqn:Hconv; cbn [fst snd] in Hrun.
  - (* the conversion fails: nothing happens for this entry *)
    destruct (IH w Hwf Hnodup Hrun) as [Hvals Hstale]. split.
    + intros name' i' [[= -> ->]|Hin]%elem_of_cons Hok.
      * by rewrite Hconv in Hok.
      * by apply Hvals.
    + intros k g Hk Hother. apply (Hstale k g Hk).
      intros name' i' Hin. apply Hother. by right.
  - (* the conversion succeeds: an upsert *)
    pose proof (gaugeFromNameAndValue_cells w name v Hwf) as [Hwf1 Hstep].
    pose proof (gaugeFromNameAndValue_extends w name v) as [Hext1 _].
    destruct (gaugeFromNameAndValue name v w) as [[] w1|w1] eqn:Hupsert;
      [|done].
    cbn [final] in Hwf1, Hext1.
    destruct (Hstep w1 eq_refl) as [(g1 & Hg1 & Hcell1) Hothers].
    destruct Hext1 as (Hs1 & _ & Hsub1 & _ & _).
    assert (Hconv1 : converter (conf w1) = converter (conf w)) by apply Hs1.
    pose proof (sameSettings_key w w1 Hs1) as Hkey1.
    destruct (IH w1 Hwf1 Hnodup Hrun) as [Hvals Hstale].
    rewrite Hconv1, Hkey1 in Hvals, Hstale.
    assert (Hsub : gauges (conf w1) ⊆ gauges (conf w')).
    { pose proof (Each_extends r w1) as [Hext _].
      rewrite Hrun in Hext. apply Hext. }
    assert (Hdiff : forall name' i',
               (name', i') ∈ r ->
               compositeKey (conf w) name <> compositeKey (conf w) name').
    { intros name' i' Hin Heq.
      apply (compositeKey_inj (conf w)) in Heq. subst name'.
      apply Hfresh. apply list_elem_of_fmap. by exists (name, i'). }
    split.
    + intros name' i' [[= -> ->]|Hin]%elem_of_cons Hok.
      * exists g1. split; [by eapply lookup_weaken|].
        rewrite Hconv. cbn [fst]. rewrite <- Hcell1.
        apply (Hstale _ g1 Hg1). intros name' i' Hin _. by eapply Hdiff.
      * by apply Hvals.
    + intros k g Hk Hother.
      assert (Hne : k <> compositeKey (conf w) name).
      { apply (Hother name i); [by left | by rewrite Hconv]. }
      rewrite <- (Hothers k g Hk Hne).
      apply (Hstale k g); [by eapply lookup_weaken|].
      intros name' i' Hin. apply Hother. by right.
Qed.

End PassCellFacts.

Section PassTheorems.

Context {R : Type} `{!Prometheus.Registerer R}.

Implicit Types (w : World R) (r : Metrics.Registry) (name : string).

Local Abbreviation callback :=
  (fun (name : string) (i : Metric) =>
     converter ← get converter;
     let '(value, err) := converter name i in
     match err with
     | None => gaugeFromNameAndValue name value
     | Some _ => mret tt
     end).

Lemma start_wellFormed (c : PrometheusConfig R) :
  gauges c = ∅ -> wellFormed (start c).
Proof.
  intros Hempty. repeat split.
  - intros k g. cbn. by rewrite Hempty, lookup_empty.
  - intros k g. cbn. by rewrite Hempty, lookup_empty.
  - intros k1 k2 g1 g2. cbn. by rewrite Hempty, lookup_empty.
Qed.

(** Registrations and cache entries, one upsert. *)
Lemma gaugeFromNameAndValue_balance w name val :
  let out := gaugeFromNameAndValue name val w in
  (count isMustRegister (calls (final out)) + size (gauges (conf w))
   = count isMustRegister (calls w) + size (gauges (conf (final out)))
     + (if panicked out then 1 else 0))%nat.
Proof.
  cbv zeta.
  destruct (gauges (conf w) !! compositeKey (conf w) name) as [g|] eqn:Hg.
  - rewrite (gaugeFromNameAndValue_hit _ _ _ g) by done.
    cbn [final panicked conf calls]. rewrite count_app. cbn. lia.
  - rewrite gaugeFromNameAndValue_miss by done.
    destruct (Prometheus.MustRegister _ _);
      cbn [final panicked conf calls gauges].
    + rewrite !count_app, map_size_insert_None by done. cbn. lia.
    + rewrite count_app. cbn. lia.
Qed.

Lemma Each_balance r w :
  let out := Each r callback w in
  (count isMustRegister (calls (final out)) + size (gauges (conf w))
   = count isMustRegister (calls w) + size (gauges (conf (final out)))
     + (if panicked out then 1 else 0))%nat.
Proof.
  cbv zeta. revert w. induction r as [|[name i] r IH]; intros w.
  { cbn. lia. }
  rewrite Each_cons, callback_unfold.
  destruct (converter (conf w) name i).2.
  { apply IH. }
  pose proof (gaugeFromNameAndValue_balance w name
                (converter (conf w) name i).1) as Hstep.
  cbv zeta in Hstep.
  destruct (gaugeFromNameAndValue _ _ w) as [[] w1|w1];
    cbn [final panicked] in *; [|done].
  specialize (IH w1). lia.
Qed.

Lemma passes_balance (rs : list Metrics.Registry) w :
  let out := passes rs w in
  (count isMustRegister (calls (final out)) + size (gauges (conf w))
   = count isMustRegister (calls w) + size (gauges (conf (final out)))
     + (if panicked out then 1 else 0))%nat.
Proof.
  cbv zeta. revert w. induction rs as [|r rs IH]; intros w.
  { cbn. lia. }
  rewrite passes_cons, UpdatePrometheusMetricsOnce_unfold.
  set (w0 := final (registry_update r w)).
  pose proof (Each_balance (registry (conf w0)) w0) as Hpass.
  cbv zeta in Hpass.
  change (gauges (conf w0)) with (gauges (conf w)) in Hpass.
  change (calls w0) with (calls w) in Hpass.
  destruct (Each _ _ w0) as [[] w1|w1]; cbn [final panicked] in *; [|done].
  specialize (IH w1). lia.
Qed.

(** A pass all of whose converted names are cached. *)
Lemma Each_cached r w :
  (forall name i,
     (name, i) ∈ r ->
     (converter (conf w) name i).2 = nil_error ->
     is_Some (gauges (conf w) !! compositeKey (conf w) name)) ->
  exists w',
    Each r callback w = Ok tt w' /\
    conf w' = conf w /\
    exists new,
      calls w' = calls w ++ new /\ count isMustRegister new = 0%nat.
Proof.
  revert w. induction r as [|[name i] r IH]; intros w Hcached.
  { exists w. split; [done|]. split; [done|]. exists [].
    by rewrite app_nil_r. }
  rewrite Each_cons, callback_unfold.
  destruct (converter (conf w) name i) as [v [e|]] eqn:Hconv; cbn [fst snd].
  - apply IH. intros name' i' Hin. apply Hcached. by right.
  - destruct (Hcached name i) as [g Hg]; [by left | by rewrite Hconv|].
    rewrite (gaugeFromNameAndValue_hit _ _ _ g) by done.
    set (w1 := mkWorld _ _ _).
    destruct (IH w1) as (w' & Hrun & Hconf & new & Hcalls & Hnone).
    { intros name' i' Hin. apply Hcached. by right. }
    exists w'. split; [done|]. split; [done|].
    exists (Prometheus.CallSet g v :: new).
    split; [by rewrite Hcalls; cbn; rewrite <- app_assoc|].
    cbn. by rewrite Hnone.
Qed.

End PassTheorems.

(** X7.  Every state that passes reach from a new provider, the state of a
    panic included, is well-formed: each cached gauge sits under the
    composite key of the name in its help text and has a value cell of its
    own. *)
Theorem passes_keep_wellFormed {R : Type} `{!Prometheus.Registerer R}
    (c : PrometheusConfig R) (rs : list Metrics.Registry) :
  gauges c = ∅ ->
  wellFormed (final (passes rs (start c))).
Proof. intros Hempty. by apply passes_wellFormed, start_wellFormed. Qed.

Lemma passes_keep_wellFormed_witness :
  wellFormed
    (final (passes Sample.run (start (Sample.provider (Sample.two 2 0) [])))).
Proof.
  exact (passes_keep_wellFormed (Sample.provider (Sample.two 2 0) [])
           Sample.run eq_refl).
Defined.

(** X8.  After a pass that returns, over a registry with distinct names and
    from a well-formed state, the value cell of the gauge of every metric
    that converted holds the converted value, and the cell of every gauge
    cached before under another key is as it was: a metric that is gone
    from the registry or fails to convert keeps its last value. *)
Theorem pass_publishes_converted_values {R : Type}
    `{!Prometheus.Registerer R} (w w' : World R) (e : error) :
  wellFormed w ->
  NoDup (registry (conf w)).*1 ->
  UpdatePrometheusMetricsOnce w = Ok e w' ->
  (forall name i,
     (name, i) ∈ registry (conf w) ->
     (converter (conf w) name i).2 = nil_error ->
     exists g,
       gauges (conf w') !! compositeKey (conf w) name = Some g /\
       cells w' !! Prometheus.addr g = Some (converter (conf w) name i).1) /\
  (forall k g,
     gauges (conf w) !! k = Some g ->
     (forall name i,
        (name, i) ∈ registry (conf w) ->
        (converter (conf w) name i).2 = nil_error ->
        k <> compositeKey (conf w) name) ->
     cells w' !! Prometheus.addr g = cells w !! Prometheus.addr g).
Proof.
  intros Hwf Hnodup Hrun. rewrite UpdatePrometheusMetricsOnce_unfold in Hrun.
  apply (Each_values (registry (conf w)) w w' Hwf Hnodup).
  destruct (Each _ _ w) as [[] w1|w1]; [|done]. by injection Hrun as _ <-.
Qed.

Lemma pass_publishes_converted_values_witness :
  exists g,
    gauges (conf (final (UpdatePrometheusMetricsOnce (SampleRun.warm 2 15))))
      !! "test_subsys_Counter" = Some g /\
    cells (final (UpdatePrometheusMetricsOnce (SampleRun.warm 2 15)))
      !! Prometheus.addr g = Some (Float64.of_int64 15).
Proof.
  assert (Hwf : wellFormed (SampleRun.warm 2 15)).
  { unfold SampleRun.warm. rewrite UpdatePrometheusMetricsOnce_final.
    apply (Each_wellFormed _ (SampleRun.fresh 2)).
    by apply start_wellFormed. }
  assert (Hnodup : NoDup (registry (conf (SampleRun.warm 2 15))).*1).
  { apply (bool_decide_unpack _). vm_compute. exact I. }
  destruct (pass_publishes_converted_values (SampleRun.warm 2 15)
              (final (UpdatePrometheusMetricsOnce (SampleRun.warm 2 15)))
              nil_error Hwf Hnodup eq_refl) as [Hvals _].
  apply (Hvals "Counter" (Sample.counter 15)); [by left | reflexivity].
Defined.

(** X9.  A pass over a registry all of whose converting names are already
    cached cannot panic: it returns [nil], makes no registration, and
    leaves the configuration, gauge cache and Prometheus registry included,
    as it was. *)
Theorem pass_over_cached_names_registers_nothing {R : Type}
    `{!Prometheus.Registerer R} (w : World R) :
  (forall name i,
     (name, i) ∈ registry (conf w) ->
     (converter (conf w) name i).2 = nil_error ->
     is_Some (gauges (conf w) !! compositeKey (conf w) name)) ->
  exists w',
    UpdatePrometheusMetricsOnce w = Ok nil_error w' /\
    conf w' = conf w /\
    exists new,
      calls w' = calls w ++ new /\ count isMustRegister new = 0%nat.
Proof.
  intros Hcached. rewrite UpdatePrometheusMetricsOnce_unfold.
  destruct (Each_cached (registry (conf w)) w Hcached)
    as (w' & -> & Hconf & Hnew).
  by exists w'.
Qed.

Lemma pass_over_cached_names_registers_nothing_witness :
  exists w',
    UpdatePrometheusMetricsOnce (SampleRun.warm 2 15) = Ok nil_error w' /\
    conf w' = conf (SampleRun.warm 2 15) /\
    exists new,
      calls w' = calls (SampleRun.warm 2 15) ++ new /\
      count isMustRegister new = 0%nat.
Proof.
  apply (pass_over_cached_names_registers_nothing (SampleRun.warm 2 15)).
  intros name i Hin Hok.
  change (registry (conf (SampleRun.warm 2 15))) with (Sample.mixed 15) in Hin.
  unfold Sample.mixed in Hin.
  apply elem_of_cons in Hin as [[= -> ->]|Hin]; [by eexists|].
  apply elem_of_cons in Hin as [[= -> ->]|Hin]; [discriminate Hok|].
  apply elem_of_cons in Hin as [[= -> ->]|Hin]; [discriminate Hok|].
  by apply elem_of_nil in Hin.
Defined.

(** X10.  Along any run of passes the registrations and the cache entries
    stay in step: the number of [MustRegister] calls made equals the number
    of gauges added to the cache, plus one when the run ended in the panic
    of a refused registration. *)
Theorem registrations_match_cache_entries {R : Type}
    `{!Prometheus.Registerer R} (w : World R) (rs : list Metrics.Registry) :
  let out := passes rs w in
  (count isMustRegister (calls (final out)) + size (gauges (conf w))
   = count isMustRegister (calls w) + size (gauges (conf (final out)))
     + (if panicked out then 1 else 0))%nat.
Proof. apply passes_balance. Qed.

(** X11.  With a converter that returns the same value for every metric
    and never fails, as in the tests, a pass that returns has set one gauge
    per registry entry, values of unsupported types included, and every
    value set is that constant. *)
Theorem constant_converter_overrides {R : Type}
    `{!Prometheus.Registerer R} (w w' : World R) (e : error) (v : float64) :
  converter (conf w) = (fun _ _ => (v, nil_error)) ->
  UpdatePrometheusMetricsOnce w = Ok e w' ->
  exists new,
    calls w' = calls w ++ new /\
    count isSet new = length (registry (conf w)) /\
    Forall (fun c => forall g v', c = Prometheus.CallSet g v' -> v' = v) new.
Proof.
  intros Hconst Hrun.
  rewrite UpdatePrometheusMetricsOnce_unfold in Hrun.
  pose proof (Each_calls (registry (conf w)) w) as Hpass.
  destruct (Each _ _ w) as [[] w1|w1]; [|done]. injection Hrun as _ <-.
  destruct Hpass as (_ & _ & per & Hcalls & Hper).
  exists (concat per). split; [done|].
  rewrite Hconst in Hper. clear Hcalls Hconst.
  induction Hper as [|[name i] cs r per Hentry _ [IHcount IHall]];
    [by split; [|constructor]|].
  unfold entryCalls in Hentry. cbn [fst snd] in Hentry.
  destruct Hentry as (g & _ & [-> | ->]); cbn [concat].
  - split; [cbn; by rewrite IHcount|].
    constructor; [by intros ? ? [= _ <-] | done].
  - split; [cbn; by rewrite IHcount|].
    constructor; [done|]. constructor; [by intros ? ? [= _ <-] | done].
Qed.

Lemma constant_converter_overrides_witness :
  exists new,
    calls (final (UpdatePrometheusMetricsOnce
                    (SampleRun.constant (Float64.of_int64 12345))))
    = calls (SampleRun.constant (Float64.of_int64 12345)) ++ new /\
    count isSet new = 3%nat /\
    Forall (fun c => forall g v',
              c = Prometheus.CallSet g v' -> v' = Float64.of_int64 12345)
      new.
Proof.
  apply (constant_converter_overrides
           (SampleRun.constant (Float64.of_int64 12345))
           (final (UpdatePrometheusMetricsOnce
                     (SampleRun.constant (Float64.of_int64 12345))))
           nil_error (Float64.of_int64 12345)).
  - reflexivity.
  - vm_compute. reflexivity.
Defined.

(** X12.  Passes never forget: along any run, the state of a panic
    included, every cached gauge stays cached under its key, the namespace,
    subsystem, flush interval, converter and normalizer stay as they are,
    and the calls already made stay the first calls of the log. *)
Theorem passes_never_drop_gauges {R : Type} `{!Prometheus.Registerer R}
    (w : World R) (rs : list Metrics.Registry) :
  let w' := final (passes rs w) in
  (forall k g,
     gauges (conf w) !! k = Some g -> gauges (conf w') !! k = Some g) /\
  Namespace (conf w') = Namespace (conf w) /\
  Subsystem (conf w') = Subsystem (conf w) /\
  FlushInterval (conf w') = FlushInterval (conf w) /\
  converter (conf w') = converter (conf w) /\
  keyNormalizer (conf w') = keyNormalizer (conf w) /\
  exists new, calls w' = calls w ++ new.
Proof.
  cbv zeta.
  destruct (passes_extends rs w) as ((Hn & Hs & Hc & Hk) & Hf & Hg & _ & Hnew).
  split; [|done]. intros k g Hkg. by eapply lookup_weaken.
Qed.

(** ** The two versions of the exporter *)

Lemma converters_agree (name : string) (i : Metric) :
  (DefaultMetricConverter name i).1 = (V1.DefaultMetricConverter i).1 /\
  ((DefaultMetricConverter name i).2 = nil_error <->
   (V1.DefaultMetricConverter i).2 = nil_error).
Proof.
  unfold DefaultMetricConverter, V1.DefaultMetricConverter, GoFmt.Errorf.
  destruct i as [ty v]; cbn [view TypeOf].
  destruct v as [| | |[|x samples]| | |];
    cbn [fst snd length Nat.ltb Nat.leb].
  all: (split; [exact eq_refl|]).
  all: first [ split; intros _; exact eq_refl
             | split; intros H; discriminate H ].
Qed.

(** X13.  The default converter of the second version returns the value of
    the first version's and fails on the same metrics; the metric name is
    used for the error message only. *)
Theorem DefaultMetricConverter_agrees_with_first_version
    (name : string) (i : Metric) :
  (DefaultMetricConverter name i).1 = (V1.DefaultMetricConverter i).1 /\
  ((DefaultMetricConverter name i).2 = nil_error <->
   (V1.DefaultMetricConverter i).2 = nil_error).
Proof. apply converters_agree. Qed.

Section Versions.

Context {R : Type} `{!Prometheus.Registerer R}.

Lemma gaugeFromNameAndValue_upgrade (name : string) (val : float64)
    (w : V1.World R) :
  gaugeFromNameAndValue name val (upgradeWorld w)
  = mapState upgradeWorld (V1.gaugeFromNameAndValue name val w).
Proof.
  unfold gaugeFromNameAndValue, V1.gaugeFromNameAndValue,
    promRegistry_MustRegister, V1.promRegistry_MustRegister,
    gauges_store, V1.gauges_store, Gauge_Set, V1.Gauge_Set,
    NewGauge, V1.NewGauge, get, V1.get,
    mbind, M_bind, V1.M_bind, mret, M_ret, V1.M_ret.
  cbn [upgradeWorld upgrade conf cells calls Namespace Subsystem gauges
       keyNormalizer promRegistry V1.conf V1.cells V1.calls].
  destruct (V1.gauges (V1.conf w) !! _); [done|].
  cbn [V1.conf V1.cells V1.calls V1.promRegistry mapState].
  by destruct (Prometheus.MustRegister _ _).
Qed.

Local Abbreviation callback1 :=
  (fun (name : string) (i : Metric) =>
     converter ← V1.get V1.converter;
     let '(value, err) := converter i in
     match err with
     | None => V1.gaugeFromNameAndValue name value
     | Some _ => mret tt
     end).

Local Abbreviation callback :=
  (fun (name : string) (i : Metric) =>
     converter ← get converter;
     let '(value, err) := converter name i in
     match err with
     | None => gaugeFromNameAndValue name value
     | Some _ => mret tt
     end).

Lemma Each1_cons name i r (f : string -> Metric -> V1.M R unit)
    (w : V1.World R) :
  V1.Each ((name, i) :: r) f w
  = match f name i w with
    | Ok _ w1 => V1.Each r f w1
    | Panic w1 => Panic w1
    end.
Proof. done. Qed.

Lemma callback1_unfold name i (w : V1.World R) :
  callback1 name i w
  = match (V1.converter (V1.conf w) i).2 with
    | None => V1.gaugeFromNameAndValue name (V1.converter (V1.conf w) i).1 w
    | Some _ => Ok tt w
    end.
Proof.
  unfold mbind, V1.M_bind, V1.get.
  by destruct (V1.converter (V1.conf w) i) as [v [e|]].
Qed.

Lemma UpdatePrometheusMetricsOnce1_unfold (w : V1.World R) :
  V1.UpdatePrometheusMetricsOnce w
  = match V1.Each (V1.Registry (V1.conf w)) callback1 w with
    | Ok _ w' => Ok nil_error w'
    | Panic w' => Panic w'
    end.
Proof. done. Qed.

Lemma Each_upgrade (r : Metrics.Registry) (w : V1.World R) :
  Each r callback (upgradeWorld w)
  = mapState upgradeWorld (V1.Each r callback1 w).
Proof.
  revert w. induction r as [|[name i] r IH]; intros w; [done|].
  rewrite Each_cons, callback_unfold, Each1_cons, callback1_unfold.
  change (converter (conf (upgradeWorld w)) name i)
    with (V1.converter (V1.conf w) i).
  destruct (V1.converter (V1.conf w) i) as [v [e|]]; cbn [fst snd].
  - apply IH.
  - rewrite gaugeFromNameAndValue_upgrade.
    destruct (V1.gaugeFromNameAndValue name v w) as [[] w1|w1];
      cbn [mapState]; [apply IH | done].
Qed.

(** A pass looks at the converter's value and at whether its error is
    [nil], at nothing else. *)
Lemma gaugeFromNameAndValue_withConverter (f : MetricConverter)
    (name : string) (val : float64) (w : World R) :
  gaugeFromNameAndValue name val (withConverter f w)
  = mapState (withConverter f) (gaugeFromNameAndValue name val w).
Proof.
  unfold gaugeFromNameAndValue, promRegistry_MustRegister, gauges_store,
    Gauge_Set, NewGauge, get, mbind, M_bind, mret, M_ret.
  cbn [withConverter Converter fst conf cells calls Namespace Subsystem
       gauges keyNormalizer promRegistry].
  destruct (gauges (conf w) !! _); [done|].
  cbn [conf cells calls promRegistry mapState].
  by destruct (Prometheus.MustRegister _ _).
Qed.

Lemma Each_withConverter (f : MetricConverter) (r : Metrics.Registry)
    (w : World R) :
  (forall name i,
     (name, i) ∈ r ->
     (f name i).1 = (converter (conf w) name i).1 /\
     ((f name i).2 = nil_error <-> (converter (conf w) name i).2 = nil_error)) ->
  Each r callback (withConverter f w)
  = mapState (withConverter f) (Each r callback w).
Proof.
  revert w. induction r as [|[name i] r IH]; intros w Hagree; [done|].
  rewrite !Each_cons, !callback_unfold.
  change (converter (conf (withConverter f w)) name i) with (f name i).
  destruct (Hagree name i) as [Hval Hnil]; [by left|].
  assert (Hrest : forall w1 : World R,
             converter (conf w1) = converter (conf w) ->
             forall name' i',
               (name', i') ∈ r ->
               (f name' i').1 = (converter (conf w1) name' i').1 /\
               ((f name' i').2 = nil_error <->
                (converter (conf w1) name' i').2 = nil_error)).
  { intros w1 -> name' i' Hin. apply Hagree. by right. }
  destruct (f name i).2 as [e|] eqn:Hf,
    (converter (conf w) name i).2 as [e'|] eqn:Hc.
  - by apply IH, Hrest.
  - by destruct Hnil as [_ Hnil]; specialize (Hnil eq_refl).
  - by destruct Hnil as [Hnil _]; specialize (Hnil eq_refl).
  - rewrite Hval, gaugeFromNameAndValue_withConverter.
    pose proof (gaugeFromNameAndValue_extends w name
                  (converter (conf w) name i).1) as [Hext _].
    destruct (gaugeFromNameAndValue _ _ w) as [[] w1|w1];
      cbn [mapState final] in *; [|done].
    apply IH, Hrest. apply Hext.
Qed.

End Versions.

(** X14.  The first version is the second with the default normalizer: a
    pass of the first version on a state, and a pass of the second version
    on the same state read as a configuration with [DefaultKeyNormalizer]
    and a converter that drops the name, make the same calls, leave the
    same cells and cache, and return or panic alike. *)
Theorem first_version_is_default_normalizer {R : Type}
    `{!Prometheus.Registerer R} (w : V1.World R) :
  UpdatePrometheusMetricsOnce (upgradeWorld w)
  = mapState upgradeWorld (V1.UpdatePrometheusMetricsOnce w).
Proof.
  rewrite UpdatePrometheusMetricsOnce_unfold,
    UpdatePrometheusMetricsOnce1_unfold.
  change (registry (conf (upgradeWorld w))) with (V1.Registry (V1.conf w)).
  rewrite Each_upgrade.
  by destruct (V1.Each _ _ w) as [[] w1|w1].
Qed.

(** X15.  A pass uses the converter's value and whether its error is [nil];
    the message of the error is never looked at.  Replacing the converter
    by one that agrees with it in these two respects on the entries of the
    registry changes nothing else in the outcome of the pass. *)
Theorem pass_ignores_error_messages {R : Type} `{!Prometheus.Registerer R}
    (f : MetricConverter) (w : World R) :
  (forall name i,
     (name, i) ∈ registry (conf w) ->
     (f name i).1 = (converter (conf w) name i).1 /\
     ((f name i).2 = nil_error <-> (converter (conf w) name i).2 = nil_error)) ->
  UpdatePrometheusMetricsOnce (withConverter f w)
  = mapState (withConverter f) (UpdatePrometheusMetricsOnce w).
Proof.
  intros Hagree. rewrite !UpdatePrometheusMetricsOnce_unfold.
  change (registry (conf (withConverter f w))) with (registry (conf w)).
  rewrite Each_withConverter by done.
  by destruct (Each _ _ w) as [[] w1|w1].
Qed.

Lemma pass_ignores_error_messages_witness :
  UpdatePrometheusMetricsOnce
    (withConverter (fun _ i => V1.DefaultMetricConverter i)
       (SampleRun.fresh 2))
  = mapState (withConverter (fun _ i => V1.DefaultMetricConverter i))
      (UpdatePrometheusMetricsOnce (SampleRun.fresh 2)).
Proof.
  apply (pass_ignores_error_messages
           (fun _ i => V1.DefaultMetricConverter i) (SampleRun.fresh 2)).
  intros name i _. cbn [SampleRun.fresh].
  destruct (converters_agree name i) as [Hval Hnil].
  split; [symmetry; exact Hval | symmetry; exact Hnil].
Defined.

(** X16.  The second version with its defaults behaves as the first: the
    provider built with the option [FlushRate d] alone is the first
    version's provider for the interval [d], the method
    [SetMetricConverter] is the option [Converter], and on every state of
    the first version that uses its default converter, a pass of the first
    version and a pass of the second version with [DefaultMetricConverter]
    and [DefaultKeyNormalizer] have the same outcome. *)
Theorem second_version_defaults_match_first {R : Type}
    `{!Prometheus.Registerer R} (w : V1.World R) :
  V1.converter (V1.conf w) = V1.DefaultMetricConverter ->
  (forall r namespace subsystem (promRegistry : R) d,
     NewPrometheusProvider r namespace subsystem promRegistry [FlushRate d]
     = (Some (conf (withConverter DefaultMetricConverter
                      (upgradeWorld
                         (V1.mkWorld
                            (V1.NewPrometheusProvider r namespace subsystem
                               promRegistry d)
                            [] [])))),
        nil_error)) /\
  (forall (c : V1.PrometheusConfig R) (f : V1.MetricConverter),
     upgrade (V1.SetMetricConverter c f)
     = (Converter (fun _ i => f i) (upgrade c)).1) /\
  UpdatePrometheusMetricsOnce
    (withConverter DefaultMetricConverter (upgradeWorld w))
  = mapState
      (fun w1 => withConverter DefaultMetricConverter (upgradeWorld w1))
      (V1.UpdatePrometheusMetricsOnce w).
Proof.
  intros Hdefault. split; [|split; [by intros|]].
  { intros r namespace subsystem pr d.
    unfold NewPrometheusProvider, withConverter, upgradeWorld, upgrade,
      V1.NewPrometheusProvider.
    cbn [applySetters FlushRate Converter fst snd conf V1.conf V1.namespace
         V1.Registry V1.subsystem V1.promRegistry V1.FlushInterval V1.gauges
         Namespace registry Subsystem promRegistry FlushInterval gauges
         converter keyNormalizer].
    reflexivity. }
  rewrite UpdatePrometheusMetricsOnce_unfold,
    UpdatePrometheusMetricsOnce1_unfold.
  change (registry (conf (withConverter DefaultMetricConverter
                            (upgradeWorld w))))
    with (V1.Registry (V1.conf w)).
  rewrite Each_withConverter, Each_upgrade.
  - by destruct (V1.Each _ _ w) as [[] w1|w1].
  - intros name i _.
    change (converter (conf (upgradeWorld w)) name i)
      with (V1.converter (V1.conf w) i).
    rewrite Hdefault. apply converters_agree.
Qed.

Lemma second_version_defaults_match_first_witness :
  let w :=
    V1.mkWorld
      (V1.NewPrometheusProvider (R := Prometheus.Registry)
         (Sample.mixed 2) "test" "subsys" [] Second)
      [] [] in
  UpdatePrometheusMetricsOnce
    (withConverter DefaultMetricConverter (upgradeWorld w))
  = mapState
      (fun w1 => withConverter DefaultMetricConverter (upgradeWorld w1))
      (V1.UpdatePrometheusMetricsOnce w).
Proof.
  exact (proj2 (proj2 (second_version_defaults_match_first
                         (V1.mkWorld
                            (V1.NewPrometheusProvider
                               (R := Prometheus.Registry)
                               (Sample.mixed 2) "test" "subsys" [] Second)
                            [] [])
                         eq_refl))).
Defined.

(** ** Passes against a registry that refuses duplicates *)

Section DuplicateRefusingRegistry.

Implicit Types (w : World Prometheus.Registry) (r : Metrics.Registry)
  (name : string).

Local Abbreviation callback :=
  (fun (name : string) (i : Metric) =>
     converter ← get converter;
     let '(value, err) := converter name i in
     match err with
     | None => gaugeFromNameAndValue name value
     | Some _ => mret tt
     end).

Lemma start_registryInv (c : PrometheusConfig Prometheus.Registry) :
  gauges c = ∅ -> registryInv (start c).
Proof.
  intros Hempty. split; [|split].
  - intros k g. cbn. by rewrite Hempty, lookup_empty.
  - intros k g. cbn. by rewrite Hempty, lookup_empty.
  - intros k1 k2 g1 g2. cbn. by rewrite Hempty, lookup_empty.
Qed.

Lemma MustRegister_accepts (reg reg' : Prometheus.Registry)
    (g : Prometheus.Gauge) :
  Prometheus.MustRegister reg g = Some reg' <->
  (Prometheus.fqName g ∉ reg) /\ reg' = Prometheus.fqName g :: reg.
Proof.
  unfold Prometheus.MustRegister, Prometheus.Registry_Registerer.
  case_bool_decide; naive_solver.
Qed.

Lemma gaugeFromNameAndValue_registryInv w name val :
  registryInv w -> registryInv (final (gaugeFromNameAndValue name val w)).
Proof.
  intros (Hname & Hdesc & Hinj).
  destruct (gauges (conf w) !! compositeKey (conf w) name) as [g|] eqn:Hg.
  { by rewrite (gaugeFromNameAndValue_hit _ _ _ g) by done. }
  rewrite gaugeFromNameAndValue_miss by done.
  destruct (Prometheus.MustRegister _ _) as [reg'|] eqn:Hreg; [|done].
  apply MustRegister_accepts in Hreg as [Hfresh ->]. cbn [final].
  set (g := Prometheus.mkGauge _ _) in *.
  split; [|split].
  - intros k g'. unfold compositeKey. cbn [conf gauges Namespace Subsystem].
    destruct (decide (k = compositeKey (conf w) name)) as [->|Hk].
    + rewrite lookup_insert_eq. by intros [= <-].
    + rewrite lookup_insert_ne by done. apply Hname.
  - intros k g'. cbn [conf gauges promRegistry].
    destruct (decide (k = compositeKey (conf w) name)) as [->|Hk].
    + rewrite lookup_insert_eq. intros [= <-]. split; [done|]. by left.
    + rewrite lookup_insert_ne by done. intros Hk'.
      destruct (Hdesc k g' Hk') as [Hd Hin]. split; [exact Hd | by right].
  - intros k1 k2 g1 g2. cbn [conf gauges].
    destruct (decide (k1 = compositeKey (conf w) name)) as [->|Hk1],
      (decide (k2 = compositeKey (conf w) name)) as [->|Hk2]; [done|..].
    + rewrite lookup_insert_eq, lookup_insert_ne by done.
      intros [= <-] Hg2 Hfq. destruct (Hdesc k2 g2 Hg2) as [_ Hin].
      by rewrite <- Hfq in Hin.
    + rewrite lookup_insert_eq, lookup_insert_ne by done.
      intros Hg1 [= <-] Hfq. destruct (Hdesc k1 g1 Hg1) as [_ Hin].
      by rewrite Hfq in Hin.
    + rewrite !lookup_insert_ne by done. apply Hinj.
Qed.

Lemma Each_registryInv r w :
  registryInv w -> registryInv (final (Each r callback w)).
Proof.
  revert w. induction r as [|[name i] r IH]; intros w Hinv; [done|].
  rewrite Each_cons, callback_unfold.
  destruct (converter (conf w) name i).2; [by apply IH|].
  pose proof (gaugeFromNameAndValue_registryInv w name
                (converter (conf w) name i).1 Hinv) as Hinv1.
  destruct (gaugeFromNameAndValue _ _ w) as [[] w1|w1]; cbn [final] in *;
    [by apply IH | done].
Qed.

Lemma passes_registryInv (rs : list Metrics.Registry) w :
  registryInv w -> registryInv (final (passes rs w)).
Proof.
  revert w. induction rs as [|r rs IH]; intros w Hinv; [done|].
  rewrite passes_final_cons.
  set (w0 := final (registry_update r w)).
  assert (Hinv0 : registryInv w0) by exact Hinv.
  pose proof (Each_registryInv (registry (conf w0)) w0 Hinv0) as H1.
  rewrite <- UpdatePrometheusMetricsOnce_final in H1.
  destruct (UpdatePrometheusMetricsOnce w0) as [e w1|w1]; cbn [final] in H1;
    [by apply IH | done].
Qed.

Lemma Forall2_elem_of_l {A B : Type} (P : A -> B -> Prop) (l : list A)
    (k : list B) (x : A) :
  Forall2 P l k -> x ∈ l -> exists y, P x y.
Proof.
  induction 1 as [|x' y l k Hxy _ IH]; intros Hin.
  - by apply elem_of_nil in Hin.
  - apply elem_of_cons in Hin as [->|Hin]; [by exists y | by apply IH].
Qed.

(** After a pass that returns, the gauge of a converted entry is cached
    with the options built for its name, and registered. *)
Lemma Each_registered r w w' name i :
  registryInv w ->
  Each r callback w = Ok tt w' ->
  (name, i) ∈ r ->
  (converter (conf w) name i).2 = nil_error ->
  exists g,
    gauges (conf w') !! compositeKey (conf w) name = Some g /\
    Prometheus.desc g = descriptorOf (conf w) name /\
    Prometheus.fqName g ∈ promRegistry (conf w').
Proof.
  intros Hinv Hrun Hin Hok.
  pose proof (Each_registryInv r w Hinv) as (Hname & Hdesc & _).
  pose proof (Each_calls r w) as Hcalls.
  rewrite Hrun in Hname, Hdesc, Hcalls. cbn [final] in Hname, Hdesc.
  destruct Hcalls as (Hs & _ & per & _ & Hper).
  destruct (Forall2_elem_of_l _ _ _ _ Hper Hin) as (cs & Hentry).
  unfold entryCalls in Hentry. cbn [fst snd] in Hentry.
  destruct (converter (conf w) name i) as [v [e|]]; [done|].
  destruct Hentry as (g & Hg & _).
  pose proof (Hname _ _ Hg) as Hkey.
  apply (compositeKey_inj (conf w')) in Hkey.
  destruct (Hdesc _ _ Hg) as [Hd Hreg].
  rewrite (sameSettings_key w w' Hs) in Hg.
  exists g. split; [done|]. split; [|done].
  rewrite Hd, <- Hkey. unfold descriptorOf.
  destruct Hs as (-> & -> & _ & ->). done.
Qed.

End DuplicateRefusingRegistry.

(** X17.  Against a Prometheus registry that refuses a fully-qualified name
    it already holds, a pass that returns leaves every converted metric
    registered: the registry holds the name built from the normalized
    namespace, subsystem and metric name, so that registering a gauge with
    these options again is refused, as the tests expect. *)
Theorem converted_metrics_are_registered
    (w w' : World Prometheus.Registry) (e : error)
    (name : string) (i : Metric) (g' : Prometheus.Gauge) :
  registryInv w ->
  UpdatePrometheusMetricsOnce w = Ok e w' ->
  (name, i) ∈ registry (conf w) ->
  (converter (conf w) name i).2 = nil_error ->
  Prometheus.desc g' = descriptorOf (conf w) name ->
  Prometheus.BuildFQName (keyNormalizer (conf w) (Namespace (conf w)))
    (keyNormalizer (conf w) (Subsystem (conf w)))
    (keyNormalizer (conf w) name)
  ∈ promRegistry (conf w') /\
  Prometheus.MustRegister (promRegistry (conf w')) g' = None.
Proof.
  intros Hinv Hrun Hin Hok Hg'.
  rewrite UpdatePrometheusMetricsOnce_unfold in Hrun.
  destruct (Each _ _ w) as [[] w1|w1] eqn:Hpass; [|done].
  injection Hrun as _ <-.
  destruct (Each_registered _ _ _ _ _ Hinv Hpass Hin Hok)
    as (g & _ & Hd & Hreg).
  assert (Hfq : Prometheus.fqName g' = Prometheus.fqName g).
  { unfold Prometheus.fqName. by rewrite Hg', Hd. }
  split.
  - unfold Prometheus.fqName in Hreg. by rewrite Hd in Hreg.
  - unfold Prometheus.MustRegister, Prometheus.Registry_Registerer.
    rewrite bool_decide_eq_true_2; [done | by rewrite Hfq].
Qed.

Lemma converted_metrics_are_registered_witness :
  let w := SampleRun.fresh 2 in
  let w' := final (UpdatePrometheusMetricsOnce w) in
  "test_subsys_Counter" ∈ promRegistry (conf w') /\
  Prometheus.MustRegister (promRegistry (conf w'))
    (Prometheus.mkGauge 7
       (Prometheus.mkGaugeOpts "test" "subsys" "Counter" "Counter"))
  = None.
Proof.
  apply (converted_metrics_are_registered (SampleRun.fresh 2)
           (final (UpdatePrometheusMetricsOnce (SampleRun.fresh 2)))
           nil_error "Counter" (Sample.counter 2)
           (Prometheus.mkGauge 7
              (Prometheus.mkGaugeOpts "test" "subsys" "Counter" "Counter"))).
  - by apply start_registryInv.
  - reflexivity.
  - by left.
  - reflexivity.
  - reflexivity.
Defined.

(** X18.  Against such a registry, two metrics with different names that
    both convert and whose names the normalizer maps to the same string
    cannot both be published: from any state that passes reach from a new
    provider, the pass over a registry holding both panics. *)
Theorem colliding_names_panic (w : World Prometheus.Registry)
    (name1 name2 : string) (i1 i2 : Metric) :
  registryInv w ->
  name1 <> name2 ->
  keyNormalizer (conf w) name1 = keyNormalizer (conf w) name2 ->
  (name1, i1) ∈ registry (conf w) ->
  (name2, i2) ∈ registry (conf w) ->
  (converter (conf w) name1 i1).2 = nil_error ->
  (converter (conf w) name2 i2).2 = nil_error ->
  panicked (UpdatePrometheusMetricsOnce w) = true.
Proof.
  intros Hinv Hne Hnorm Hin1 Hin2 Hok1 Hok2.
  rewrite UpdatePrometheusMetricsOnce_unfold.
  destruct (Each _ _ w) as [[] w'|w'] eqn:Hpass; [|done]. exfalso.
  destruct (Each_registered _ _ _ _ _ Hinv Hpass Hin1 Hok1)
    as (g1 & Hg1 & Hd1 & _).
  destruct (Each_registered _ _ _ _ _ Hinv Hpass Hin2 Hok2)
    as (g2 & Hg2 & Hd2 & _).
  pose proof (Each_registryInv (registry (conf w)) w Hinv) as (_ & _ & Hinj).
  rewrite Hpass in Hinj. cbn [final] in Hinj.
  assert (Hfq : Prometheus.fqName g1 = Prometheus.fqName g2).
  { unfold Prometheus.fqName. rewrite Hd1, Hd2. cbn. by rewrite Hnorm. }
  apply Hne, (compositeKey_inj (conf w)). by eapply Hinj.
Qed.

Lemma colliding_names_panic_witness :
  panicked
    (UpdatePrometheusMetricsOnce (start (Sample.provider Sample.colliding [])))
  = true.
Proof.
  apply (colliding_names_panic
           (start (Sample.provider Sample.colliding []))
           "a.b" "a_b" (Sample.counter 1) (Sample.counter 2)).
  - by apply start_registryInv.
  - discriminate.
  - reflexivity.
  - by left.
  - right. by left.
  - reflexivity.
  - reflexivity.
Defined.

(** X19.  Against such a registry the cache and the registry stay in
    agreement along every run of passes from a new provider, the state of a
    panic included: every cached gauge has the options built for its name
    and is held by the registry, and no two cached gauges share a
    fully-qualified name. *)
Theorem passes_keep_registry_agreement
    (c : PrometheusConfig Prometheus.Registry) (rs : list Metrics.Registry) :
  gauges c = ∅ ->
  registryInv (final (passes rs (start c))).
Proof. intros Hempty. by apply passes_registryInv, start_registryInv. Qed.

Lemma passes_keep_registry_agreement_witness :
  registryInv
    (final (passes Sample.run (start (Sample.provider (Sample.two 2 0) [])))).
Proof.
  exact (passes_keep_registry_agreement (Sample.provider (Sample.two 2 0) [])
           Sample.run eq_refl).
Defined.
